(** * keyleds: device discovery and the device-manager registry

    A shallow embedding of [tools/DeviceWatcher.h] and
    [keyledsd/Service.cxx].

    - [device::Description], the filter rules of [FilteredDeviceWatcher]
      and the state of [DeviceWatcher] follow the class declarations of
      the header.
    - The bodies of [DeviceWatcher::scan], [DeviceWatcher::setActive],
      [DeviceWatcher::onMonitorReady] and [FilteredDeviceWatcher::isVisible]
      live in [DeviceWatcher.cxx]; they are modelled from the written
      specification and marked as such.
    - [Service] follows [Service.cxx] statement by statement, in a small
      state / trace / exception monad. *)

From stdpp Require Import gmap strings list fin_maps.

(** ** device::Description *)

(** The pre-loaded snapshot of one udev device: the accessors the two
    files use, and the three bags [m_properties], [m_tags],
    [m_attributes]. *)
Record Description := mkDescription {
  sysPath : string;
  devPath : string;
  subsystem : string;
  devType : string;
  devNode : string;
  properties : gmap string string;
  tags : list string;
  attributes : gmap string string
}.

(** ** FilteredDeviceWatcher: the rules *)

Module FilteredDeviceWatcher.

Record t := mk {
  m_matchSubsystem : string;
  m_matchDevType : string;
  m_matchProperties : gmap string string;
  m_matchTags : list string;
  m_matchAttributes : gmap string string
}.

(** A freshly constructed watcher: default-constructed members. *)
Definition create : t :=
  {| m_matchSubsystem := ""; m_matchDevType := "";
     m_matchProperties := ∅; m_matchTags := [];
     m_matchAttributes := ∅ |}.

Definition setSubsystem (val : string) (f : t) : t :=
  {| m_matchSubsystem := val;
     m_matchDevType := m_matchDevType f;
     m_matchProperties := m_matchProperties f;
     m_matchTags := m_matchTags f;
     m_matchAttributes := m_matchAttributes f |}.

Definition setDevType (val : string) (f : t) : t :=
  {| m_matchSubsystem := m_matchSubsystem f;
     m_matchDevType := val;
     m_matchProperties := m_matchProperties f;
     m_matchTags := m_matchTags f;
     m_matchAttributes := m_matchAttributes f |}.

(** [m_matchProperties[key] = val] *)
Definition addProperty (key val : string) (f : t) : t :=
  {| m_matchSubsystem := m_matchSubsystem f;
     m_matchDevType := m_matchDevType f;
     m_matchProperties := <[key := val]> (m_matchProperties f);
     m_matchTags := m_matchTags f;
     m_matchAttributes := m_matchAttributes f |}.

(** [m_matchTags.push_back(val)] *)
Definition addTag (val : string) (f : t) : t :=
  {| m_matchSubsystem := m_matchSubsystem f;
     m_matchDevType := m_matchDevType f;
     m_matchProperties := m_matchProperties f;
     m_matchTags := m_matchTags f ++ [val];
     m_matchAttributes := m_matchAttributes f |}.

(** [m_matchAttributes[key] = val] *)
Definition addAttribute (key val : string) (f : t) : t :=
  {| m_matchSubsystem := m_matchSubsystem f;
     m_matchDevType := m_matchDevType f;
     m_matchProperties := m_matchProperties f;
     m_matchTags := m_matchTags f;
     m_matchAttributes := <[key := val]> (m_matchAttributes f) |}.

(** One string rule: the empty string is the wildcard. *)
Definition ruleAccepts (rule actual : string) : bool :=
  bool_decide (rule = "") || bool_decide (actual = rule).

(** One required key/value pair against a bag of the device. *)
Definition hasEntry (bag : gmap string string) (entry : string * string) : bool :=
  bool_decide (bag !! entry.1 = Some entry.2).

(** Modelled from the spec: the body of
    [FilteredDeviceWatcher::isVisible] is in [DeviceWatcher.cxx].  The
    rules are walked one after the other and the first one that fails
    rejects the device. *)
Definition isVisible (f : t) (dev : Description) : bool :=
  if negb (ruleAccepts (m_matchSubsystem f) (subsystem dev)) then false
  else if negb (ruleAccepts (m_matchDevType f) (devType dev)) then false
  else if negb (forallb (hasEntry (properties dev))
                        (map_to_list (m_matchProperties f))) then false
  else if negb (forallb (λ tag, bool_decide (tag ∈ tags dev))
                        (m_matchTags f)) then false
  else forallb (hasEntry (attributes dev))
               (map_to_list (m_matchAttributes f)).

End FilteredDeviceWatcher.

(** ** DeviceWatcher *)

Module DeviceWatcher.

(** The two Qt signals of the class. *)
Inductive Signal :=
| deviceAdded (d : Description)
| deviceRemoved (d : Description).

(** [m_active] and [m_known] ("Map of device syspath to description").
    The udev handles carry no information of their own: the monitor
    exists exactly while [m_active] is set. *)
Record t := mk {
  m_active : bool;
  m_known : gmap string Description
}.

(** State after the constructor. *)
Definition create : t := {| m_active := false; m_known := ∅ |}.

(** What udev hands out: the records of an enumeration (a record that
    cannot be read is [None]) and whether a monitor can be created. *)
Record Udev := mkUdev {
  udev_enumerate : list (option Description);
  udev_monitor_new : bool
}.

(** A raw monitor event. *)
Inductive Action := ActionAdd | ActionRemove | ActionOther.

Record RawEvent := mkRawEvent {
  ev_action : Action;
  ev_device : option Description
}.

Section Hooks.

(** The overridable hooks: what the enumerator set up by
    [setupEnumerator] lets through, and [isVisible]. *)
Variable setupEnumerator : Description → bool.
Variable isVisible : Description → bool.

(** Modelled from the spec: the filtered enumeration result of [scan]
    ([DeviceWatcher.cxx] is not at hand).  Unreadable records are
    skipped, the enumerator's own filter and then [isVisible] apply. *)
Definition enumerate (u : Udev) : list Description :=
  filter (λ d, isVisible d)
         (filter (λ d, setupEnumerator d) (omap id (udev_enumerate u))).

(** Modelled from the spec: one device of the enumeration against the
    known map ([DeviceWatcher.cxx] is not at hand).  Absent: added
    notification and insertion.  Present: left untouched. *)
Definition announce (st : gmap string Description * list Signal)
    (d : Description) : gmap string Description * list Signal :=
  match st.1 !! sysPath d with
  | Some _ => st
  | None => (<[sysPath d := d]> st.1, st.2 ++ [deviceAdded d])
  end.

(** Modelled from the spec: the known entries whose path is absent
    from the enumeration. *)
Definition vanished (known : gmap string Description)
    (present : list string) : list (string * Description) :=
  filter (λ kd, kd.1 ∉ present) (map_to_list known).

(** Modelled from the spec: [DeviceWatcher::scan], whose body is in
    [DeviceWatcher.cxx].  Enumerate, filter, then diff against
    [m_known]. *)
Definition scan (u : Udev) (w : t) : t * list Signal :=
  let visible := enumerate u in
  let st := foldl announce (m_known w, []) visible in
  let gone := vanished (m_known w) (sysPath <$> visible) in
  ({| m_active := m_active w;
      m_known := foldl (λ m kd, delete kd.1 m) st.1 gone |},
   st.2 ++ ((λ kd, deviceRemoved kd.2) <$> gone)).

(** Modelled from the spec: [DeviceWatcher::setActive], whose body is
    in [DeviceWatcher.cxx].  Activation opens the monitor (a failure
    is the fatal [device::Error], nothing left active) and runs the
    baseline scan; deactivation releases the monitor, keeps [m_known]
    and emits nothing. *)
Definition setActive (u : Udev) (active : bool) (w : t)
    : option string * t * list Signal :=
  if active then
    if udev_monitor_new u then
      let r := scan u {| m_active := true; m_known := m_known w |} in
      (None, r.1, r.2)
    else (Some "failed to create the udev monitor", w, [])
  else (None, {| m_active := false; m_known := m_known w |}, []).

(** Modelled from the spec: one raw event of the monitor, with the
    add / remove semantics of the diff of [scan]. *)
Definition onEvent (st : gmap string Description * list Signal)
    (ev : RawEvent) : gmap string Description * list Signal :=
  match ev_device ev with
  | None => st
  | Some d =>
    match ev_action ev with
    | ActionAdd => if isVisible d then announce st d else st
    | ActionRemove =>
      match st.1 !! sysPath d with
      | Some old => (delete (sysPath d) st.1, st.2 ++ [deviceRemoved old])
      | None => st
      end
    | ActionOther => st
    end
  end.

(** Modelled from the spec: [DeviceWatcher::onMonitorReady], whose
    body is in [DeviceWatcher.cxx]: the ready events are drained in
    order. *)
Definition onMonitorReady (events : list RawEvent) (w : t)
    : t * list Signal :=
  let st := foldl onEvent (m_known w, []) events in
  ({| m_active := m_active w; m_known := st.1 |}, st.2).

End Hooks.

Definition isAdded (k : string) (s : Signal) : bool :=
  match s with
  | deviceAdded d => bool_decide (sysPath d = k)
  | deviceRemoved _ => false
  end.

Definition isRemoved (k : string) (s : Signal) : bool :=
  match s with
  | deviceAdded _ => false
  | deviceRemoved d => bool_decide (sysPath d = k)
  end.

(** How many added (removed) notifications a trace holds for a path. *)
Definition countAdded (k : string) (out : list Signal) : nat :=
  length (List.filter (isAdded k) out).

Definition countRemoved (k : string) (out : list Signal) : nat :=
  length (List.filter (isRemoved k) out).

(** The devices announced and not withdrawn since, by replaying a
    trace of notifications. *)
Definition replay1 (m : gmap string Description) (s : Signal)
    : gmap string Description :=
  match s with
  | deviceAdded d => <[sysPath d := d]> m
  | deviceRemoved d => delete (sysPath d) m
  end.

Definition replay (trace : list Signal) : gmap string Description :=
  foldl replay1 ∅ trace.

(** The words of the invariant: an added notification for the path
    with no removed notification for it afterwards. *)
Definition announced (trace : list Signal) (k : string) : Prop :=
  ∃ before d after,
    trace = before ++ deviceAdded d :: after ∧ sysPath d = k ∧
    ∀ d', deviceRemoved d' ∈ after → sysPath d' ≠ k.

End DeviceWatcher.

(** ** Service *)

Module Service.

(** An opened [keyleds::Device]: the identifiers the service prints. *)
Record Device := mkDevice {
  model : string;
  firmware : string;
  name : string
}.

(** [Device::error]: [code()] and [what()]. *)
Record Device_error := mkDeviceError {
  code : Z;
  what : string
}.

(** A [DeviceManager]: the copy of the description it was built from
    and the device moved into it.  The configuration it is also given is
    the service's own [m_configuration]. *)
Record DeviceManager := mkDeviceManager {
  description : Description;
  device : Device
}.

Record Configuration := mkConfiguration {
  autoQuit : bool
}.

Record t := mk {
  m_configuration : Configuration;
  m_deviceWatcher : DeviceWatcher.t;
  m_active : bool;
  m_devices : gmap string DeviceManager
}.

(** The two Qt signals of the service. *)
Inductive Signal :=
| deviceManagerAdded (manager : DeviceManager)
| deviceManagerRemoved (manager : DeviceManager).

(** What a handler does to the outside, in program order.  Signals are
    delivered synchronously, inside [emit]: the slots connected to one
    see [m_devices] as it is at that statement, which [Emit] keeps.
    [Destroy] is the deletion of a manager by the [unique_ptr] that owns
    it.  [WatcherSetActive] is the call of the watcher's own [setActive],
    by which the udev monitor is opened or released. *)
Inductive Effect :=
| Emit (sig : Signal) (registry : gmap string DeviceManager)
| Connect (sender : DeviceManager)
| Cout (line : string)
| Cerr (line : string)
| Quit
| Destroy (manager : DeviceManager)
| WatcherSetActive (active : bool).

(** The two exception types that travel through the service:
    [Device::error] and the watcher's [device::Error]. *)
Inductive Exception :=
| DeviceError (e : Device_error)
| WatcherError (what : string).

Inductive Outcome (A : Type) :=
| Normal (a : A)
| Thrown (e : Exception).
Arguments Normal {A} a.
Arguments Thrown {A} e.

(** A member function: state in, outcome, state and trace out. *)
Definition M (A : Type) : Type := t → Outcome A * t * list Effect.

Definition ret {A} (a : A) : M A := λ s, (Normal a, s, []).

(** Sequencing: an exception skips what follows; the state reached and
    the trace written so far stay. *)
Definition bind {A B} (c : M A) (f : A → M B) : M B := λ s,
  match c s with
  | (Normal a, s1, log1) =>
    match f a s1 with (o, s2, log2) => (o, s2, log1 ++ log2) end
  | (Thrown e, s1, log1) => (Thrown e, s1, log1)
  end.

Declare Scope service_scope.
Delimit Scope service_scope with service.
Bind Scope service_scope with M.
Notation "x ← c1 ; c2" := (bind c1 (λ x, c2))
  (at level 20, c1 at level 100, c2 at level 200, only parsing) : service_scope.
Notation "c1 ;; c2" := (bind c1 (λ _, c2))
  (at level 100, c2 at level 200, only parsing, right associativity) : service_scope.
Local Open Scope service_scope.

Definition get : M t := λ s, (Normal s, s, []).
Definition put (s : t) : M unit := λ _, (Normal (), s, []).
Definition effect (e : Effect) : M unit := λ s, (Normal (), s, [e]).
Definition throw {A} (e : Exception) : M A := λ s, (Thrown e, s, []).

(** [emit sig(...)] *)
Definition emit (sig : Signal) : M unit :=
  s ← get; effect (Emit sig (m_devices s)).

(** [try { body } catch (Device::error & error) { handler }] *)
Definition try_catch {A} (body : M A) (handler : Device_error → M A) : M A :=
  λ s,
    match body s with
    | (Thrown (DeviceError error), s1, log1) =>
      match handler error s1 with (o, s2, log2) => (o, s2, log1 ++ log2) end
    | r => r
    end.

Definition set_devices (devices : gmap string DeviceManager) (s : t) : t :=
  {| m_configuration := m_configuration s;
     m_deviceWatcher := m_deviceWatcher s;
     m_active := m_active s;
     m_devices := devices |}.

Definition set_deviceWatcher (w : DeviceWatcher.t) (s : t) : t :=
  {| m_configuration := m_configuration s;
     m_deviceWatcher := w;
     m_active := m_active s;
     m_devices := m_devices s |}.

Definition set_active (active : bool) (s : t) : t :=
  {| m_configuration := m_configuration s;
     m_deviceWatcher := m_deviceWatcher s;
     m_active := active;
     m_devices := m_devices s |}.

(** [Device(devNode)]: the constructor returns the device or throws. *)
Definition Device_new (hid : string → Device_error + Device)
    (devNode : string) : M Device :=
  match hid devNode with
  | inl error => throw (DeviceError error)
  | inr device => ret device
  end.

(** [m_devices[key] = std::move(manager)]: the slot is found or made,
    the new manager moves in, the manager it held is deleted. *)
Definition assign (key : string) (manager : DeviceManager) : M unit :=
  s ← get;
  put (set_devices (<[key := manager]> (m_devices s)) s);;
  match m_devices s !! key with
  | Some old => effect (Destroy old)
  | None => ret ()
  end.

(** [m_devices.clear()]: every manager is deleted, in the order in which
    the container destroys its elements.  The container type is declared
    in [Service.h], so the order is taken as [deletionOrder]. *)
Definition clear (deletionOrder : gmap string DeviceManager → list DeviceManager)
    : M unit :=
  s ← get;
  put (set_devices ∅ s);;
  λ s', (Normal (), s', Destroy <$> deletionOrder (m_devices s)).

Section Code.

(** Not in the two files: the value of the libkeyleds error code, the
    serial a manager reports, and the hooks of the service's watcher. *)
Variable KEYLEDS_ERROR_HIDVERSION : Z.
Variable serial : DeviceManager → string.
Variable setupEnumerator : Description → bool.
Variable isVisible : Description → bool.

(** The world at the time of a call: the device I/O layer.  Of what the
    [try] block of [onDeviceAdded] can throw, the [Device::error] of the
    [Device] constructor is what is modelled. *)
Variable hid : string → Device_error + Device.

(** The order in which [m_devices.clear()] destroys the managers. *)
Variable deletionOrder : gmap string DeviceManager → list DeviceManager.

Definition onDeviceAdded (description : Description) : M unit :=
  try_catch
    (device ← Device_new hid (devNode description);
     let manager := {| description := description; device := device |} in
     emit (deviceManagerAdded manager);;
     effect (Connect manager);;
     effect (Cout ("Opened device " +:+ devNode description
                   +:+ ": serial " +:+ serial manager
                   +:+ ", model " +:+ model device
                   +:+ " firmware " +:+ firmware device
                   +:+ ", <" +:+ name device +:+ ">"));;
     assign (devPath description) manager)
    (λ error,
       if bool_decide (code error ≠ KEYLEDS_ERROR_HIDVERSION)
       then effect (Cerr ("Not opening device " +:+ devNode description
                          +:+ ": " +:+ what error))
       else ret ()).

Definition onDeviceRemoved (description : Description) : M unit :=
  s ← get;
  match m_devices s !! devPath description with
  | Some manager =>
    put (set_devices (delete (devPath description) (m_devices s)) s);;
    effect (Cout ("Removing device " +:+ serial manager));;
    emit (deviceManagerRemoved manager);;
    s' ← get;
    (if bool_decide (m_devices s' = ∅) && autoQuit (m_configuration s')
     then effect Quit else ret ());;
    effect (Destroy manager)
  | None => ret ()
  end.

(** [QObject::sender()] is the manager whose [stopped()] fired. *)
Definition onDeviceLoopFinished (sender : DeviceManager) : M unit :=
  onDeviceRemoved (description sender).

(** The connections made by the constructor. *)
Definition slot (sig : DeviceWatcher.Signal) : M unit :=
  match sig with
  | DeviceWatcher.deviceAdded d => onDeviceAdded d
  | DeviceWatcher.deviceRemoved d => onDeviceRemoved d
  end.

Fixpoint deliver (sigs : list DeviceWatcher.Signal) : M unit :=
  match sigs with
  | [] => ret ()
  | sig :: rest => slot sig;; deliver rest
  end.

(** [m_deviceWatcher.setActive(active)]: the call enters the watcher,
    whose signals reach the two slots in the order they are emitted. *)
Definition deviceWatcher_setActive (u : DeviceWatcher.Udev)
    (active : bool) : M unit :=
  effect (WatcherSetActive active);;
  s ← get;
  let r := DeviceWatcher.setActive setupEnumerator isVisible u active
             (m_deviceWatcher s) in
  put (set_deviceWatcher r.1.2 s);;
  deliver r.2;;
  match r.1.1 with
  | Some what => throw (WatcherError what)
  | None => ret ()
  end.

Definition setActive (u : DeviceWatcher.Udev) (active : bool) : M unit :=
  deviceWatcher_setActive u active;;
  s ← get; put (set_active active s).

Definition init (u : DeviceWatcher.Udev) : M unit := setActive u true.

(** [Service::~Service] *)
Definition destroy (u : DeviceWatcher.Udev) : M unit :=
  setActive u false;;
  clear deletionOrder.

End Code.

(** State after the constructor. *)
Definition create (configuration : Configuration) : t :=
  {| m_configuration := configuration;
     m_deviceWatcher := DeviceWatcher.create;
     m_active := false;
     m_devices := ∅ |}.

Definition outcome {A} (r : Outcome A * t * list Effect) : Outcome A := r.1.1.
Definition state {A} (r : Outcome A * t * list Effect) : t := r.1.2.
Definition trace {A} (r : Outcome A * t * list Effect) : list Effect := r.2.

End Service.

(** ** The states the discovery engine can reach *)

Module Discovery.

Import DeviceWatcher.

(** The three operations of the engine, with what udev answers. *)
Inductive Op :=
| OpScan (u : Udev)
| OpSetActive (u : Udev) (active : bool)
| OpMonitorReady (events : list RawEvent).

Section Hooks.

Variable setupEnumerator : Description → bool.
Variable isVisible : Description → bool.

Definition step (op : Op) (w : t) : t * list Signal :=
  match op with
  | OpScan u => scan setupEnumerator isVisible u w
  | OpSetActive u active =>
    let r := setActive setupEnumerator isVisible u active w in (r.1.2, r.2)
  | OpMonitorReady events => onMonitorReady isVisible events w
  end.

(** The engine after a sequence of operations, with every
    notification emitted since construction. *)
Definition run (ops : list Op) : t * list Signal :=
  foldl (λ st op, let r := step op st.1 in (r.1, st.2 ++ r.2))
        (create, []) ops.

End Hooks.

(** Every entry of the known map sits under its own syspath. *)
Definition keyed (known : gmap string Description) : Prop :=
  map_Forall (λ k d, sysPath d = k) known.

(** The first device of an enumeration with a given path. *)
Definition firstWithPath (k : string) (l : list Description)
    : option Description :=
  head (filter (λ d, sysPath d = k) l).

End Discovery.

(** ** Counting what the service did *)

Module Registry.

Import Service.

Definition isManagerAdded (e : Effect) : bool :=
  match e with Emit (deviceManagerAdded _) _ => true | _ => false end.

Definition isManagerRemoved (e : Effect) : bool :=
  match e with Emit (deviceManagerRemoved _) _ => true | _ => false end.

Definition isQuit (e : Effect) : bool :=
  match e with Quit => true | _ => false end.

Definition managerAddedCount (log : list Effect) : nat :=
  length (List.filter isManagerAdded log).

Definition managerRemovedCount (log : list Effect) : nat :=
  length (List.filter isManagerRemoved log).

Definition quitCount (log : list Effect) : nat :=
  length (List.filter isQuit log).

(** How many managers the registry holds under a path. *)
Definition managersAt (p : string) (registry : gmap string DeviceManager) : nat :=
  length (filter (λ kv, kv.1 = p) (map_to_list registry)).

(** The registries the slots of the service's signals have seen. *)
Definition snapshots (log : list Effect) : list (gmap string DeviceManager) :=
  omap (λ e, match e with Emit _ registry => Some registry | _ => None end) log.

(** An added notification together with the answer of the device I/O
    layer at the time it is handled. *)
Definition Arrival : Type := (string → Device_error + Device) * Description.

Section Code.

Variable KEYLEDS_ERROR_HIDVERSION : Z.
Variable serial : DeviceManager → string.

(** A burst of added notifications, handled one after the other. *)
Fixpoint addedRun (l : list Arrival) : M unit :=
  match l with
  | [] => ret ()
  | a :: rest =>
    bind (onDeviceAdded KEYLEDS_ERROR_HIDVERSION serial a.1 a.2)
         (λ _, addedRun rest)
  end.

End Code.

(** The manager a path ends with after such a burst, in the words of
    the de-duplication rule: the latest successful open replaces what
    was there, a failed open leaves it. *)
Definition lastOpened (current : option DeviceManager) (l : list Arrival)
    : option DeviceManager :=
  foldl (λ cur a,
           match a.1 (devNode a.2) with
           | inr dev => Some {| description := a.2; device := dev |}
           | inl _ => cur
           end) current l.

(** The order of insertion and notification as the specification words
    it: whenever the slots of [deviceManagerAdded] run, the registry
    already holds that manager under the path. *)
Definition insertedBeforeAnnounced (p : string) (log : list Effect) : Prop :=
  ∀ manager registry,
    Emit (deviceManagerAdded manager) registry ∈ log →
    registry !! p = Some manager.

(** The line [onDeviceAdded] prints for a new manager. *)
Definition openedLine (serial : DeviceManager → string)
    (manager : DeviceManager) : string :=
  "Opened device " +:+ devNode (description manager)
  +:+ ": serial " +:+ serial manager
  +:+ ", model " +:+ model (device manager)
  +:+ " firmware " +:+ firmware (device manager)
  +:+ ", <" +:+ name (device manager) +:+ ">".

(** The line it prints for an open failure. *)
Definition notOpeningLine (d : Description) (error : Device_error) : string :=
  "Not opening device " +:+ devNode d +:+ ": " +:+ what error.

End Registry.

(** ** The slots under the event loop *)

Module Loop.

Import Service Registry.

(** What reaches the three slots of the service: an added notification
    (with the answer of the device layer at that time), a removed
    notification, or the [stopped()] of a manager. *)
Inductive Event :=
| Added (hid : string → Device_error + Device) (d : Description)
| Removed (d : Description)
| Stopped (sender : DeviceManager).

(** The device path an event is about. *)
Definition eventPath (ev : Event) : string :=
  match ev with
  | Added _ d => devPath d
  | Removed d => devPath d
  | Stopped sender => devPath (description sender)
  end.

Section Code.

Variable KEYLEDS_ERROR_HIDVERSION : Z.
Variable serial : DeviceManager → string.

Definition dispatch (ev : Event) : M unit :=
  match ev with
  | Added hid d => onDeviceAdded KEYLEDS_ERROR_HIDVERSION serial hid d
  | Removed d => onDeviceRemoved serial d
  | Stopped sender => onDeviceLoopFinished serial sender
  end.

Fixpoint dispatchAll (evs : list Event) : M unit :=
  match evs with
  | [] => ret ()
  | ev :: rest => bind (dispatch ev) (λ _, dispatchAll rest)
  end.

End Code.

(** Every manager of the registry sits under the device path of the
    description it remembers. *)
Definition registryKeyed (registry : gmap string DeviceManager) : Prop :=
  map_Forall (λ p m, devPath (description m) = p) registry.

(** A listener of the two signals of the service that keeps its own
    table of managers by device path. *)
Definition observe1 (view : gmap string DeviceManager) (e : Effect)
    : gmap string DeviceManager :=
  match e with
  | Emit (deviceManagerAdded m) _ => <[devPath (description m) := m]> view
  | Emit (deviceManagerRemoved m) _ => delete (devPath (description m)) view
  | _ => view
  end.

Definition observe (view : gmap string DeviceManager) (log : list Effect)
    : gmap string DeviceManager :=
  foldl observe1 view log.

Definition isDestroy (e : Effect) : bool :=
  match e with Destroy _ => true | _ => false end.

Definition destroyCount (log : list Effect) : nat :=
  length (List.filter isDestroy log).

(** The managers a registry holds. *)
Definition held (registry : gmap string DeviceManager) : list DeviceManager :=
  (map_to_list registry).*2.

(** The managers a trace announces with [deviceManagerAdded] ... *)
Definition announcedManagers (log : list Effect) : list DeviceManager :=
  omap (λ e, match e with
             | Emit (deviceManagerAdded m) _ => Some m
             | _ => None
             end) log.

(** ... and the managers it deletes, each in the order of the trace. *)
Definition deletedManagers (log : list Effect) : list DeviceManager :=
  omap (λ e, match e with Destroy m => Some m | _ => None end) log.

(** The registry a slot of [deviceManagerRemoved] sees no longer holds
    the path of the manager the signal carries. *)
Definition removedUnlisted (e : Effect) : Prop :=
  match e with
  | Emit (deviceManagerRemoved m) registry =>
    registry !! devPath (description m) = None
  | _ => True
  end.

(** The filter rules after a series of [addProperty] calls. *)
Definition addProperties (rules : list (string * string))
    (f : FilteredDeviceWatcher.t) : FilteredDeviceWatcher.t :=
  foldl (λ f kv, FilteredDeviceWatcher.addProperty kv.1 kv.2 f) f rules.

(** ... of [addAttribute] calls ... *)
Definition addAttributes (rules : list (string * string))
    (f : FilteredDeviceWatcher.t) : FilteredDeviceWatcher.t :=
  foldl (λ f kv, FilteredDeviceWatcher.addAttribute kv.1 kv.2 f) f rules.

(** ... and of [addTag] calls. *)
Definition addTags (rules : list string)
    (f : FilteredDeviceWatcher.t) : FilteredDeviceWatcher.t :=
  foldl (λ f tag, FilteredDeviceWatcher.addTag tag f) f rules.

(** The value the last rule for a key asks for. *)
Definition lastRule (k : string) (rules : list (string * string))
    : option string :=
  snd <$> last (filter (λ kv, kv.1 = k) rules).

End Loop.

(** ** Sample devices *)

Module Sample.

Definition keyboard : Description :=
  {| sysPath := "/sys/devices/usb1/1-1/hidraw/hidraw0";
     devPath := "/devices/usb1/1-1/hidraw/hidraw0";
     subsystem := "usb"; devType := "usb_device";
     devNode := "/dev/hidraw0";
     properties := {[ "ID_INPUT" := "1" ]};
     tags := ["seat"; "keyboard"];
     attributes := {[ "idVendor" := "046d" ]} |}.

(** The same device, without the [ID_INPUT] property. *)
Definition bare : Description :=
  {| sysPath := sysPath keyboard; devPath := devPath keyboard;
     subsystem := "usb"; devType := "usb_device";
     devNode := devNode keyboard;
     properties := ∅; tags := ["keyboard"]; attributes := ∅ |}.

Definition mouse : Description :=
  {| sysPath := "/sys/devices/usb1/1-2/hidraw/hidraw1";
     devPath := "/devices/usb1/1-2/hidraw/hidraw1";
     subsystem := "usb"; devType := "usb_device";
     devNode := "/dev/hidraw1";
     properties := ∅; tags := []; attributes := ∅ |}.

(** The filter of the specification's example: subsystem usb, tag
    keyboard, property ID_INPUT=1. *)
Definition filter3 : FilteredDeviceWatcher.t :=
  FilteredDeviceWatcher.addProperty "ID_INPUT" "1"
    (FilteredDeviceWatcher.addTag "keyboard"
       (FilteredDeviceWatcher.setSubsystem "usb" FilteredDeviceWatcher.create)).

Definition g810 : Service.Device :=
  {| Service.model := "c331"; Service.firmware := "v1.2";
     Service.name := "G810" |}.

Definition HIDVERSION : Z := 5.

(** A device layer that opens the keyboard and refuses the rest as not
    being the right kind of device. *)
Definition hid (node : string) : Service.Device_error + Service.Device :=
  if bool_decide (node = "/dev/hidraw0") then inr g810
  else inl {| Service.code := HIDVERSION; Service.what := "wrong hid version" |}.

(** A device layer on which every open fails with an I/O error. *)
Definition broken (node : string) : Service.Device_error + Service.Device :=
  inl {| Service.code := 1; Service.what := "Permission denied" |}.

Definition serial (m : Service.DeviceManager) : string := "0123456789ab".

Definition manager : Service.DeviceManager :=
  {| Service.description := keyboard; Service.device := g810 |}.

Definition service (quits : bool) : Service.t :=
  Service.create {| Service.autoQuit := quits |}.

Definition tracking (quits : bool) : Service.t :=
  Service.set_devices {[ devPath keyboard := manager ]} (service quits).

Definition udev : DeviceWatcher.Udev :=
  {| DeviceWatcher.udev_enumerate := [Some keyboard; None; Some mouse];
     DeviceWatcher.udev_monitor_new := true |}.

End Sample.

(** * Properties *)

Example sample_removal :
  Service.trace (Service.onDeviceRemoved Sample.serial Sample.keyboard (Sample.tracking true))
  = [Service.Cout "Removing device 0123456789ab";
     Service.Emit (Service.deviceManagerRemoved Sample.manager) ∅;
     Service.Quit; Service.Destroy Sample.manager].
Proof. vm_compute. reflexivity. Qed.

(** ** Lists *)

Lemma filter_none {A} (P : A → Prop) `{!∀ x, Decision (P x)} (l : list A) :
  Forall (λ x, ¬ P x) l → filter P l = [].
Proof.
  induction 1 as [|x l Hx _ IH]; [reflexivity|].
  by rewrite filter_cons_False.
Qed.

(** ** The registry handlers, statement by statement *)

Section Handlers.

Import Service Registry.

Variable KEYLEDS_ERROR_HIDVERSION : Z.
Variable serial : DeviceManager → string.
Variable hid : string → Device_error + Device.

Local Abbreviation onDeviceAdded := (onDeviceAdded KEYLEDS_ERROR_HIDVERSION serial hid).
Local Abbreviation onDeviceRemoved := (onDeviceRemoved serial).

Lemma removed_untracked (d : Description) (s : t) :
  m_devices s !! devPath d = None →
  onDeviceRemoved d s = (Normal (), s, []).
Proof.
  intros Hnone. unfold Service.onDeviceRemoved, bind, get.
  rewrite Hnone. reflexivity.
Qed.

Lemma removed_tracked (d : Description) (s : t) (m : DeviceManager) :
  m_devices s !! devPath d = Some m →
  onDeviceRemoved d s =
    (Normal (),
     set_devices (delete (devPath d) (m_devices s)) s,
     [Cout ("Removing device " +:+ serial m);
      Emit (deviceManagerRemoved m) (delete (devPath d) (m_devices s))]
     ++ (if bool_decide (delete (devPath d) (m_devices s) = ∅)
            && autoQuit (m_configuration s)
         then [Quit] else [])
     ++ [Destroy m]).
Proof.
  intros Hsome. unfold Service.onDeviceRemoved, bind, get, emit.
  rewrite Hsome. cbn.
  destruct (bool_decide (delete (devPath d) (m_devices s) = ∅)
            && autoQuit (m_configuration s)); reflexivity.
Qed.

Lemma added_failed (d : Description) (s : t) (error : Device_error) :
  hid (devNode d) = inl error →
  onDeviceAdded d s =
    (Normal (), s,
     if bool_decide (code error ≠ KEYLEDS_ERROR_HIDVERSION)
     then [Cerr (notOpeningLine d error)] else []).
Proof.
  intros Hfail.
  unfold Service.onDeviceAdded, try_catch, bind, Device_new.
  rewrite Hfail. cbn.
  destruct (bool_decide (code error ≠ KEYLEDS_ERROR_HIDVERSION)); reflexivity.
Qed.

Lemma added_opened (d : Description) (s : t) (dev : Device) :
  hid (devNode d) = inr dev →
  onDeviceAdded d s =
    (Normal (),
     set_devices (<[devPath d := mkDeviceManager d dev]> (m_devices s)) s,
     [Emit (deviceManagerAdded (mkDeviceManager d dev)) (m_devices s);
      Connect (mkDeviceManager d dev);
      Cout (openedLine serial (mkDeviceManager d dev))]
     ++ match m_devices s !! devPath d with
        | Some old => [Destroy old]
        | None => []
        end).
Proof.
  intros Hopen.
  unfold Service.onDeviceAdded, try_catch, bind, Device_new, assign, emit, get.
  rewrite Hopen. cbn.
  destruct (m_devices s !! devPath d); reflexivity.
Qed.

(** The handler of an added notification never lets an exception out. *)
Lemma added_returns (d : Description) (s : t) :
  outcome (onDeviceAdded d s) = Normal ().
Proof.
  destruct (hid (devNode d)) as [error|dev] eqn:Hopen.
  - by rewrite (added_failed _ _ _ Hopen).
  - by rewrite (added_opened _ _ _ Hopen).
Qed.

Lemma removed_returns (d : Description) (s : t) :
  outcome (onDeviceRemoved d s) = Normal ().
Proof.
  destruct (m_devices s !! devPath d) as [m|] eqn:Hm.
  - by rewrite (removed_tracked _ _ _ Hm).
  - by rewrite (removed_untracked _ _ Hm).
Qed.

(** A map holds at most one value under a key. *)
Lemma managersAt_le_1 (p : string) (registry : gmap string DeviceManager) :
  managersAt p registry ≤ 1.
Proof.
  unfold managersAt.
  pose proof (NoDup_fst_map_to_list registry) as Hnd.
  induction (map_to_list registry) as [|[k v] l IH]; [simpl; lia|].
  rewrite fmap_cons in Hnd. apply NoDup_cons in Hnd as [Hk Hnd].
  rewrite filter_cons. cbn [fst]. case_decide as Hkp; [|by apply IH].
  subst k. cbn [length].
  assert (filter (λ kv : string * DeviceManager, kv.1 = p) l = []) as ->; [|simpl; lia].
  apply filter_none. apply Forall_forall. intros [k' v'] Hin Heq.
  cbn in Heq. subst k'. apply Hk. apply list_elem_of_fmap.
  by exists (p, v').
Qed.

Lemma managerRemovedCount_destroys (l : list DeviceManager) :
  managerRemovedCount (Destroy <$> l) = 0.
Proof. unfold managerRemovedCount. induction l; [reflexivity|exact IHl]. Qed.

Lemma deletedManagers_destroys (l : list DeviceManager) :
  Loop.deletedManagers (Destroy <$> l) = l.
Proof.
  unfold Loop.deletedManagers. induction l as [|m l IH]; [reflexivity|].
  rewrite fmap_cons. cbn. by rewrite IH.
Qed.

End Handlers.

(** ** The lifecycle registry *)

Section RegistryClaims.

Import Service Registry.

Variable KEYLEDS_ERROR_HIDVERSION : Z.
Variable serial : DeviceManager → string.
Variable setupEnumerator : Description → bool.
Variable isVisible : Description → bool.

Local Abbreviation onDeviceAdded := (onDeviceAdded KEYLEDS_ERROR_HIDVERSION serial).
Local Abbreviation onDeviceRemoved := (onDeviceRemoved serial).
Local Abbreviation deliver := (deliver KEYLEDS_ERROR_HIDVERSION serial).
Local Abbreviation addedRun := (addedRun KEYLEDS_ERROR_HIDVERSION serial).

Lemma addedRun_cons (a : Arrival) (rest : list Arrival) (s : t) :
  addedRun (a :: rest) s =
    let r := onDeviceAdded a.1 a.2 s in
    let r' := addedRun rest (state r) in
    (outcome r', state r', trace r ++ trace r').
Proof.
  cbn [Registry.addedRun]. unfold bind.
  pose proof (added_returns KEYLEDS_ERROR_HIDVERSION serial a.1 a.2 s) as Hret.
  destruct (onDeviceAdded a.1 a.2 s) as [[o s1] log1].
  cbn in Hret. subst o. cbn.
  by destruct (addedRun rest s1) as [[o2 s2] log2].
Qed.

(** C3.  Added notifications that arrive for one device path with no
    removal in between leave at most one manager under that path, in
    the final registry and in every registry a slot has seen on the
    way.  The rule is replacement: the path ends with the manager of
    the latest open that succeeded (or with what it held, when none
    did), the other paths are not touched, and the handler returns. *)
Theorem one_manager_per_path (l : list Arrival) (p : string) (s : t) :
  Forall (λ a, devPath a.2 = p) l →
  let r := addedRun l s in
  outcome r = Normal () ∧
  m_devices (state r) !! p = lastOpened (m_devices s !! p) l ∧
  (∀ q, q ≠ p → m_devices (state r) !! q = m_devices s !! q) ∧
  managersAt p (m_devices (state r)) ≤ 1 ∧
  Forall (λ registry, managersAt p registry ≤ 1) (snapshots (trace r)).
Proof.
  intros Hall. cbn zeta.
  split; [|split; [|split; [|split]]];
    [| | |apply managersAt_le_1
     |apply Forall_forall; intros; apply managersAt_le_1].
  - clear Hall. revert s. induction l as [|a rest IH]; intros s; [reflexivity|].
    rewrite addedRun_cons. apply IH.
  - revert s. induction Hall as [|a rest Ha _ IH]; intros s; [reflexivity|].
    rewrite addedRun_cons. cbn zeta. unfold state at 1. cbn [fst snd].
    rewrite IH. cbn [lastOpened foldl]. f_equal.
    destruct (a.1 (devNode a.2)) as [error|dev] eqn:Hopen.
    + by rewrite (added_failed _ _ _ _ _ _ Hopen).
    + rewrite (added_opened _ _ _ _ _ _ Hopen). unfold state. cbn.
      rewrite <- Ha. by rewrite lookup_insert_eq.
  - revert s. induction Hall as [|a rest Ha _ IH]; intros s q Hq; [reflexivity|].
    rewrite addedRun_cons. cbn zeta. unfold state at 1. cbn [fst snd].
    rewrite (IH _ q Hq).
    destruct (a.1 (devNode a.2)) as [error|dev] eqn:Hopen.
    + by rewrite (added_failed _ _ _ _ _ _ Hopen).
    + rewrite (added_opened _ _ _ _ _ _ Hopen). unfold state. cbn.
      rewrite lookup_insert_ne; [done|congruence].
Qed.

(** C4.  An added notification whose open fails: the hid version error
    prints nothing, any other error prints one line on the error
    channel; either way the handler returns, the service state is the
    one it started from, no [deviceManagerAdded] is emitted, and the
    notifications that follow are handled as if this one had not
    come. *)
Theorem open_failure_is_contained (hid : string → Device_error + Device)
    (d : Description) (error : Device_error)
    (rest : list DeviceWatcher.Signal) (s : t) :
  hid (devNode d) = inl error →
  let r := onDeviceAdded hid d s in
  let after := deliver hid rest s in
  outcome r = Normal () ∧
  state r = s ∧
  trace r = (if bool_decide (code error = KEYLEDS_ERROR_HIDVERSION)
             then [] else [Cerr (notOpeningLine d error)]) ∧
  managerAddedCount (trace r) = 0 ∧
  deliver hid (DeviceWatcher.deviceAdded d :: rest) s
    = (outcome after, state after, trace r ++ trace after).
Proof.
  intros Hfail. cbn zeta.
  pose proof (added_failed KEYLEDS_ERROR_HIDVERSION serial hid d s error Hfail) as Hrun.
  assert ((if bool_decide (code error ≠ KEYLEDS_ERROR_HIDVERSION)
           then [Cerr (notOpeningLine d error)] else [])
          = (if bool_decide (code error = KEYLEDS_ERROR_HIDVERSION)
             then [] else [Cerr (notOpeningLine d error)])) as Hlog.
  { destruct (decide (code error = KEYLEDS_ERROR_HIDVERSION)) as [Heq|Hne].
    - rewrite bool_decide_eq_false_2 by (intros H; by apply H).
      by rewrite bool_decide_eq_true_2.
    - rewrite bool_decide_eq_true_2 by done.
      by rewrite bool_decide_eq_false_2. }
  rewrite Hlog in Hrun.
  cbn [Service.deliver slot]. unfold bind at 1.
  rewrite Hrun. unfold outcome, state, trace. cbn [fst snd].
  repeat split.
  - by destruct (bool_decide (code error = KEYLEDS_ERROR_HIDVERSION)).
  - by destruct (deliver hid rest s) as [[o2 s2] log2].
Qed.

(** C5, as the code has it.  When the open succeeds the manager is
    built, [deviceManagerAdded] is emitted while the registry is still
    the one the handler started with, the manager's [stopped()] is
    connected, the line is printed, and only then the manager is
    stored under the device path, where it replaces (and deletes) a
    manager already there. *)
Theorem manager_announced_then_stored (hid : string → Device_error + Device)
    (d : Description) (dev : Device) (s : t) :
  hid (devNode d) = inr dev →
  let manager := {| description := d; device := dev |} in
  let r := onDeviceAdded hid d s in
  outcome r = Normal () ∧
  trace r = [Emit (deviceManagerAdded manager) (m_devices s);
             Connect manager;
             Cout (openedLine serial manager)]
            ++ match m_devices s !! devPath d with
               | Some old => [Destroy old]
               | None => []
               end ∧
  m_devices (state r) = <[devPath d := manager]> (m_devices s) ∧
  m_devices (state r) !! devPath d = Some manager.
Proof.
  intros Hopen. cbn zeta.
  rewrite (added_opened KEYLEDS_ERROR_HIDVERSION serial hid d s dev Hopen).
  unfold outcome, state, trace. cbn [fst snd m_devices set_devices].
  repeat split. apply lookup_insert_eq.
Qed.

(** C6.  A removed notification that empties a registry that was not
    empty quits the application once when auto-quit is set, and not at
    all when it is not. *)
Theorem auto_quit_on_last_removal (d : Description) (s : t) :
  m_devices s ≠ ∅ →
  m_devices (state (onDeviceRemoved d s)) = ∅ →
  quitCount (trace (onDeviceRemoved d s))
    = if autoQuit (m_configuration s) then 1 else 0.
Proof.
  intros Hbefore Hafter.
  destruct (m_devices s !! devPath d) as [m|] eqn:Hm.
  - rewrite (removed_tracked serial d s m Hm) in Hafter |- *.
    unfold state in Hafter. cbn in Hafter.
    unfold trace. cbn [snd]. rewrite Hafter.
    rewrite bool_decide_eq_true_2 by done.
    by destruct (autoQuit (m_configuration s)).
  - rewrite (removed_untracked serial d s Hm) in Hafter.
    by destruct Hbefore.
Qed.

(** C8.  A manager that stops by itself is handled by the removal
    handler, called with the description the manager remembers: the
    two calls are the same computation, so the manager under that path
    is erased, [deviceManagerRemoved] is emitted and the auto-quit test
    is made exactly as for a removal reported by the watcher. *)
Theorem loop_finished_is_removal (sender : DeviceManager) (s : t) :
  let r := onDeviceLoopFinished serial sender s in
  r = onDeviceRemoved (description sender) s ∧
  match m_devices s !! devPath (description sender) with
  | Some m =>
    state r = set_devices (delete (devPath (description sender)) (m_devices s)) s ∧
    managerRemovedCount (trace r) = 1 ∧
    Emit (deviceManagerRemoved m)
         (delete (devPath (description sender)) (m_devices s)) ∈ trace r ∧
    quitCount (trace r)
      = (if bool_decide (delete (devPath (description sender)) (m_devices s) = ∅)
            && autoQuit (m_configuration s) then 1 else 0)
  | None => r = (Normal (), s, [])
  end.
Proof.
  cbn zeta. unfold onDeviceLoopFinished. split; [reflexivity|].
  destruct (m_devices s !! devPath (description sender)) as [m|] eqn:Hm.
  - rewrite (removed_tracked serial _ s m Hm).
    unfold state, trace. cbn [fst snd].
    split; [reflexivity|].
    destruct (bool_decide (delete (devPath (description sender)) (m_devices s) = ∅)
              && autoQuit (m_configuration s));
      (split; [reflexivity|split; [|reflexivity]]);
      apply list_elem_of_further, list_elem_of_here.
  - by apply removed_untracked.
Qed.

(** C9.  The destructor first deactivates the watcher and then deletes
    the managers.  The deactivation returns, emits no signal and leaves
    every manager in the registry; the trace of the whole teardown is the
    call that deactivates the watcher followed by the deletions, which
    are the managers the registry held, each once, in the order in which
    the container destroys them; the registry ends empty and the trace
    holds no [deviceManagerRemoved], however many devices were
    tracked. *)
Theorem teardown_is_silent
    (deletionOrder : gmap string DeviceManager → list DeviceManager)
    (hid : string → Device_error + Device)
    (u : DeviceWatcher.Udev) (s : t) :
  (∀ registry, deletionOrder registry ≡ₚ (map_to_list registry).*2) →
  let off := setActive KEYLEDS_ERROR_HIDVERSION serial setupEnumerator isVisible
               hid u false s in
  let r := destroy KEYLEDS_ERROR_HIDVERSION serial setupEnumerator isVisible
             hid deletionOrder u s in
  outcome off = Normal () ∧
  trace off = [WatcherSetActive false] ∧
  m_devices (state off) = m_devices s ∧
  DeviceWatcher.m_active (m_deviceWatcher (state off)) = false ∧
  DeviceWatcher.m_known (m_deviceWatcher (state off))
    = DeviceWatcher.m_known (m_deviceWatcher s) ∧
  outcome r = Normal () ∧
  trace r = WatcherSetActive false :: (Destroy <$> deletionOrder (m_devices s)) ∧
  Loop.deletedManagers (trace r) ≡ₚ (map_to_list (m_devices s)).*2 ∧
  m_devices (state r) = ∅ ∧
  DeviceWatcher.m_active (m_deviceWatcher (state r)) = false ∧
  m_active (state r) = false ∧
  managerRemovedCount (trace r) = 0 ∧
  length (trace r) = S (size (m_devices s)).
Proof.
  intros Horder. cbn zeta.
  assert (trace (destroy KEYLEDS_ERROR_HIDVERSION serial setupEnumerator
                   isVisible hid deletionOrder u s)
          = WatcherSetActive false :: (Destroy <$> deletionOrder (m_devices s)))
    as Htrace by reflexivity.
  rewrite Htrace.
  repeat split.
  - change (Loop.deletedManagers (Destroy <$> deletionOrder (m_devices s))
            ≡ₚ (map_to_list (m_devices s)).*2).
    rewrite deletedManagers_destroys. apply Horder.
  - change (managerRemovedCount (Destroy <$> deletionOrder (m_devices s)) = 0).
    apply managerRemovedCount_destroys.
  - cbn [length]. rewrite length_fmap, (Permutation_length (Horder _)).
    by rewrite length_fmap, length_map_to_list.
Qed.

(** C10.  A removed notification for a path the registry does not hold
    does nothing: the handler returns with the state it was given and
    an empty trace, so no [deviceManagerRemoved] and no quit, whatever
    the auto-quit option and however empty the registry. *)
Theorem removal_of_unknown_is_noop (d : Description) (s : t) :
  m_devices s !! devPath d = None →
  let r := onDeviceRemoved d s in
  r = (Normal (), s, []) ∧
  managerRemovedCount (trace r) = 0 ∧
  quitCount (trace r) = 0.
Proof.
  intros Hnone. cbn zeta.
  by rewrite (removed_untracked serial d s Hnone).
Qed.

End RegistryClaims.

(** The keyboard is announced twice, then its open fails: one manager. *)
Lemma one_manager_per_path_witness :
  let l := [(Sample.hid, Sample.keyboard); (Sample.hid, Sample.bare);
            (Sample.broken, Sample.keyboard)] in
  Forall (λ a : Registry.Arrival, devPath a.2 = devPath Sample.keyboard) l ∧
  Service.m_devices
    (Service.state (Registry.addedRun Sample.HIDVERSION Sample.serial l
                      (Sample.service false)))
    !! devPath Sample.keyboard
  = Some {| Service.description := Sample.bare; Service.device := Sample.g810 |}.
Proof.
  cbn zeta. split.
  - repeat constructor.
  - pose proof (one_manager_per_path Sample.HIDVERSION Sample.serial
                  [(Sample.hid, Sample.keyboard); (Sample.hid, Sample.bare);
                   (Sample.broken, Sample.keyboard)]
                  (devPath Sample.keyboard) (Sample.service false)) as H.
    cbn zeta in H. destruct H as (_ & Hlast & _); [repeat constructor|].
    rewrite Hlast. reflexivity.
Defined.

(** The mouse is not the kind of device the service wants. *)
Lemma open_failure_is_contained_witness :
  Sample.hid (devNode Sample.mouse)
    = inl {| Service.code := Sample.HIDVERSION; Service.what := "wrong hid version" |} ∧
  Service.onDeviceAdded Sample.HIDVERSION Sample.serial Sample.hid Sample.mouse
    (Sample.tracking true)
  = (Service.Normal (), Sample.tracking true, []).
Proof.
  split; [reflexivity|].
  destruct (open_failure_is_contained Sample.HIDVERSION Sample.serial Sample.hid
              Sample.mouse
              {| Service.code := Sample.HIDVERSION; Service.what := "wrong hid version" |}
              [] (Sample.tracking true) eq_refl) as (Ho & Hs & Ht & _).
  destruct (Service.onDeviceAdded Sample.HIDVERSION Sample.serial Sample.hid
              Sample.mouse (Sample.tracking true)) as [[o s] log].
  unfold Service.outcome, Service.state, Service.trace in *. cbn [fst snd] in *.
  by subst.
Defined.

(** C5 as the specification words it fails on the first keyboard: the
    slots of [deviceManagerAdded] run on an empty registry. *)
Lemma insertedBeforeAnnounced_fails :
  Sample.hid (devNode Sample.keyboard) = inr Sample.g810 ∧
  ¬ Registry.insertedBeforeAnnounced (devPath Sample.keyboard)
      (Service.trace
         (Service.onDeviceAdded Sample.HIDVERSION Sample.serial Sample.hid
            Sample.keyboard (Sample.service false))).
Proof.
  split; [reflexivity|].
  intros Hclaim.
  specialize (Hclaim Sample.manager ∅).
  rewrite lookup_empty in Hclaim.
  assert (@None Service.DeviceManager = Some Sample.manager) as Habs; [|discriminate Habs].
  apply Hclaim. apply list_elem_of_here.
Qed.

Lemma manager_announced_then_stored_witness :
  Sample.hid (devNode Sample.keyboard) = inr Sample.g810 ∧
  Service.m_devices
    (Service.state
       (Service.onDeviceAdded Sample.HIDVERSION Sample.serial Sample.hid
          Sample.keyboard (Sample.service false)))
  = <[devPath Sample.keyboard := Sample.manager]> ∅.
Proof.
  split; [reflexivity|].
  apply (manager_announced_then_stored Sample.HIDVERSION Sample.serial Sample.hid
           Sample.keyboard Sample.g810 (Sample.service false) eq_refl).
Defined.

(** The last keyboard goes away and auto-quit is set: one quit. *)
Lemma auto_quit_on_last_removal_witness :
  Service.m_devices (Sample.tracking true) ≠ ∅ ∧
  Registry.quitCount
    (Service.trace (Service.onDeviceRemoved Sample.serial Sample.keyboard
                      (Sample.tracking true))) = 1.
Proof.
  assert (Service.m_devices (Sample.tracking true) ≠ ∅) as Hne.
  { apply insert_non_empty. }
  split; [exact Hne|].
  apply (auto_quit_on_last_removal Sample.serial Sample.keyboard
           (Sample.tracking true) Hne).
  apply delete_singleton_eq.
Defined.

(** Nothing is tracked and auto-quit is set: a removal does nothing. *)
Lemma removal_of_unknown_is_noop_witness :
  Service.m_devices (Sample.service true) !! devPath Sample.keyboard = None ∧
  Service.onDeviceRemoved Sample.serial Sample.keyboard (Sample.service true)
  = (Service.Normal (), Sample.service true, []).
Proof.
  split; [reflexivity|].
  apply (removal_of_unknown_is_noop Sample.serial Sample.keyboard
           (Sample.service true) eq_refl).
Defined.

(** Keyboard and mouse are tracked when the service is destroyed, by a
    container that deletes from the far end. *)
Lemma teardown_is_silent_witness :
  let order := λ registry : gmap string Service.DeviceManager,
                 reverse (map_to_list registry).*2 in
  let s := Service.set_devices
             (<[devPath Sample.mouse :=
                  {| Service.description := Sample.mouse;
                     Service.device := Sample.g810 |}]>
                {[ devPath Sample.keyboard := Sample.manager ]})
             (Sample.service true) in
  let r := Service.destroy Sample.HIDVERSION Sample.serial (λ _, true)
             (FilteredDeviceWatcher.isVisible Sample.filter3) Sample.hid
             order Sample.udev s in
  (∀ registry, order registry ≡ₚ (map_to_list registry).*2) ∧
  head (Service.trace r) = Some (Service.WatcherSetActive false) ∧
  Registry.managerRemovedCount (Service.trace r) = 0 ∧
  length (Service.trace r) = 3.
Proof.
  cbn zeta.
  assert (∀ registry : gmap string Service.DeviceManager,
            reverse (map_to_list registry).*2 ≡ₚ (map_to_list registry).*2)
    as Horder by (intros registry; apply reverse_Permutation).
  split; [exact Horder|].
  destruct (teardown_is_silent Sample.HIDVERSION Sample.serial (λ _, true)
              (FilteredDeviceWatcher.isVisible Sample.filter3)
              (λ registry, reverse (map_to_list registry).*2)
              Sample.hid Sample.udev
              (Service.set_devices
                 (<[devPath Sample.mouse :=
                      {| Service.description := Sample.mouse;
                         Service.device := Sample.g810 |}]>
                    {[ devPath Sample.keyboard := Sample.manager ]})
                 (Sample.service true)) Horder)
    as (_ & _ & _ & _ & _ & _ & Htrace & _ & _ & _ & _ & Hsilent & Hlength).
  split; [by rewrite Htrace|]. split; [exact Hsilent|].
  rewrite Hlength. vm_compute. reflexivity.
Defined.

(** ** The match filter *)

Section FilterClaims.

Import FilteredDeviceWatcher.

Lemma ruleAccepts_spec (rule actual : string) :
  ruleAccepts rule actual = true ↔ rule = "" ∨ actual = rule.
Proof.
  unfold ruleAccepts.
  rewrite orb_true_iff, !bool_decide_eq_true. reflexivity.
Qed.

Lemma hasEntries_spec (bag required : gmap string string) :
  forallb (hasEntry bag) (map_to_list required) = true ↔
  ∀ k v, required !! k = Some v → bag !! k = Some v.
Proof.
  rewrite forallb_forall. split.
  - intros Hall k v Hkv.
    specialize (Hall (k, v)). unfold hasEntry in Hall.
    rewrite bool_decide_eq_true in Hall. apply Hall.
    apply list_elem_of_In. by apply elem_of_map_to_list.
  - intros Hall [k v] Hin. unfold hasEntry.
    rewrite bool_decide_eq_true. apply Hall.
    apply elem_of_map_to_list. by apply list_elem_of_In.
Qed.

Lemma hasTags_spec (present required : list string) :
  forallb (λ tag, bool_decide (tag ∈ present)) required = true ↔
  ∀ tag, tag ∈ required → tag ∈ present.
Proof.
  rewrite forallb_forall. split.
  - intros Hall tag Hin. eapply bool_decide_eq_true_1, Hall.
    by apply list_elem_of_In.
  - intros Hall tag Hin. apply bool_decide_eq_true_2, Hall.
    by apply list_elem_of_In.
Qed.

(** The early returns add up to one conjunction. *)
Lemma isVisible_conjunction (f : t) (dev : Description) :
  isVisible f dev =
    ruleAccepts (m_matchSubsystem f) (subsystem dev)
    && ruleAccepts (m_matchDevType f) (devType dev)
    && forallb (hasEntry (properties dev)) (map_to_list (m_matchProperties f))
    && forallb (λ tag, bool_decide (tag ∈ tags dev)) (m_matchTags f)
    && forallb (hasEntry (attributes dev)) (map_to_list (m_matchAttributes f)).
Proof.
  unfold isVisible.
  destruct (ruleAccepts (m_matchSubsystem f) (subsystem dev)); [|reflexivity].
  destruct (ruleAccepts (m_matchDevType f) (devType dev)); [|reflexivity].
  destruct (forallb (hasEntry (properties dev)) _); [|reflexivity].
  destruct (forallb (λ tag, bool_decide (tag ∈ tags dev)) _); reflexivity.
Qed.

(** C7.  [isVisible] accepts a device exactly when the subsystem rule
    is unset or is the device's subsystem, the device-type rule is
    unset or is the device's type, every required property is among the
    device's properties with the required value, every required tag is
    in the device's tag list, and every required attribute is among the
    device's attributes with the required value. *)
Theorem isVisible_iff_all_rules (f : t) (dev : Description) :
  isVisible f dev = true ↔
    (m_matchSubsystem f = "" ∨ subsystem dev = m_matchSubsystem f) ∧
    (m_matchDevType f = "" ∨ devType dev = m_matchDevType f) ∧
    (∀ k v, m_matchProperties f !! k = Some v → properties dev !! k = Some v) ∧
    (∀ tag, tag ∈ m_matchTags f → tag ∈ tags dev) ∧
    (∀ k v, m_matchAttributes f !! k = Some v → attributes dev !! k = Some v).
Proof.
  rewrite isVisible_conjunction, !andb_true_iff.
  rewrite !ruleAccepts_spec, !hasEntries_spec, hasTags_spec.
  tauto.
Qed.

End FilterClaims.

(** The example of the specification: a usb keyboard with ID_INPUT=1
    passes the filter that asks for the three. *)
Lemma isVisible_iff_all_rules_witness :
  FilteredDeviceWatcher.isVisible Sample.filter3 Sample.keyboard = true.
Proof.
  apply isVisible_iff_all_rules. cbn.
  split; [by right|]. split; [by left|]. split; [|split].
  - intros k v Hkv. apply lookup_insert_Some in Hkv as [[<- <-]|[_ Hkv]].
    + reflexivity.
    + by rewrite lookup_empty in Hkv.
  - intros tag Htag. apply list_elem_of_singleton in Htag as ->.
    apply list_elem_of_further, list_elem_of_here.
  - intros k v Hkv. by rewrite lookup_empty in Hkv.
Defined.

(** The same device without the property is rejected. *)
Example isVisible_missing_property :
  FilteredDeviceWatcher.isVisible Sample.filter3 Sample.bare = false.
Proof. vm_compute. reflexivity. Qed.

(** A watcher with no rule sees every device. *)
Example isVisible_no_rule (dev : Description) :
  FilteredDeviceWatcher.isVisible FilteredDeviceWatcher.create dev = true.
Proof.
  rewrite isVisible_conjunction. cbn.
  by rewrite map_to_list_empty.
Qed.

(** ** The discovery engine *)

Section DiscoveryFacts.

Import DeviceWatcher Discovery.

Variable setupEnumerator : Description → bool.
Variable isVisible : Description → bool.

Local Abbreviation announce := DeviceWatcher.announce.
Local Abbreviation scan := (DeviceWatcher.scan setupEnumerator isVisible).
Local Abbreviation enumerate := (DeviceWatcher.enumerate setupEnumerator isVisible).

Lemma firstWithPath_cons (k : string) (d : Description) (l : list Description) :
  firstWithPath k (d :: l)
  = if decide (sysPath d = k) then Some d else firstWithPath k l.
Proof.
  unfold firstWithPath. rewrite filter_cons. by case_decide.
Qed.

Lemma firstWithPath_None (k : string) (l : list Description) :
  firstWithPath k l = None ↔ k ∉ sysPath <$> l.
Proof.
  induction l as [|d l IH]; [split; [intros _; apply not_elem_of_nil|done]|].
  rewrite firstWithPath_cons, fmap_cons, not_elem_of_cons.
  case_decide as Hd.
  - split; [done|]. intros [Hne _]. by subst.
  - rewrite IH. split; [by intros ?; split|by intros [_ ?]].
Qed.

Lemma firstWithPath_Some (k : string) (l : list Description) (d : Description) :
  firstWithPath k l = Some d → sysPath d = k ∧ d ∈ l.
Proof.
  unfold firstWithPath. intros Hhead.
  apply head_Some_elem_of, list_elem_of_filter in Hhead. done.
Qed.

Lemma countAdded_app (k : string) (l1 l2 : list Signal) :
  countAdded k (l1 ++ l2) = countAdded k l1 + countAdded k l2.
Proof. unfold countAdded. by rewrite List.filter_app, length_app. Qed.

Lemma countRemoved_app (k : string) (l1 l2 : list Signal) :
  countRemoved k (l1 ++ l2) = countRemoved k l1 + countRemoved k l2.
Proof. unfold countRemoved. by rewrite List.filter_app, length_app. Qed.

Lemma replay_app (m : gmap string Description) (l1 l2 : list Signal) :
  foldl replay1 m (l1 ++ l2) = foldl replay1 (foldl replay1 m l1) l2.
Proof. apply foldl_app. Qed.

(** The first half of the diff: what the walk over the enumeration
    leaves in the map and what it emits. *)
Lemma announce_fold (l : list Description) :
  ∀ (m : gmap string Description) (out : list Signal),
  ∃ added,
    foldl announce (m, out) l = (foldl replay1 m added, out ++ added) ∧
    (∀ k, foldl replay1 m added !! k
          = match m !! k with
            | Some d => Some d
            | None => firstWithPath k l
            end) ∧
    (∀ k, countAdded k added
          = match m !! k, firstWithPath k l with
            | None, Some _ => 1
            | _, _ => 0
            end) ∧
    (∀ k, countRemoved k added = 0).
Proof.
  induction l as [|d l IH]; intros m out.
  - exists []. cbn. rewrite app_nil_r. repeat split.
    + intros k. by destruct (m !! k).
    + intros k. by destruct (m !! k).
  - cbn [foldl]. unfold DeviceWatcher.announce at 2. cbn [fst snd].
    destruct (m !! sysPath d) as [old|] eqn:Hd.
    + destruct (IH m out) as (added & Hrun & Hmap & Hadd & Hrem).
      exists added. split; [exact Hrun|]. split; [|split; [|exact Hrem]].
      * intros k. rewrite Hmap, firstWithPath_cons.
        destruct (m !! k) eqn:Hk; [done|]. case_decide; [congruence|done].
      * intros k. rewrite Hadd, firstWithPath_cons.
        destruct (m !! k) eqn:Hk; [done|]. case_decide; [congruence|done].
    + destruct (IH (<[sysPath d := d]> m) (out ++ [deviceAdded d]))
        as (added & Hrun & Hmap & Hadd & Hrem).
      exists (deviceAdded d :: added).
      split; [by rewrite Hrun, <- app_assoc|]. cbn [foldl replay1].
      split; [|split].
      * intros k. rewrite Hmap, firstWithPath_cons.
        case_decide as Hk.
        -- subst k. by rewrite lookup_insert_eq, Hd.
        -- by rewrite lookup_insert_ne.
      * intros k. change (deviceAdded d :: added) with ([deviceAdded d] ++ added).
        rewrite countAdded_app, Hadd, firstWithPath_cons.
        unfold countAdded at 1. cbn.
        case_decide as Hk.
        -- subst k. rewrite bool_decide_eq_true_2 by done.
           by rewrite lookup_insert_eq, Hd.
        -- rewrite bool_decide_eq_false_2 by done.
           by rewrite lookup_insert_ne.
      * intros k. change (deviceAdded d :: added) with ([deviceAdded d] ++ added).
        by rewrite countRemoved_app, Hrem.
Qed.

(** A walk over devices that are all known changes nothing. *)
Lemma announce_known (l : list Description) (m : gmap string Description)
    (out : list Signal) :
  Forall (λ d, is_Some (m !! sysPath d)) l →
  foldl announce (m, out) l = (m, out).
Proof.
  induction 1 as [|d l [old Hd] _ IH]; [reflexivity|].
  cbn [foldl]. unfold DeviceWatcher.announce at 2. cbn [fst snd].
  by rewrite Hd.
Qed.

(** The second half of the diff. *)
Lemma keys_of_map (known : gmap string Description) (k : string) :
  k ∈ (map_to_list known).*1 ↔ is_Some (known !! k).
Proof.
  rewrite list_elem_of_fmap. split.
  - intros ([k' d] & -> & Hin). apply elem_of_map_to_list in Hin. by exists d.
  - intros [d Hd]. exists (k, d). split; [done|]. by apply elem_of_map_to_list.
Qed.

Lemma keyed_list (known : gmap string Description) :
  keyed known → Forall (λ kd, sysPath kd.2 = kd.1) (map_to_list known).
Proof.
  intros Hkeyed. apply Forall_forall. intros [k d] Hin.
  apply elem_of_map_to_list in Hin. exact (Hkeyed k d Hin).
Qed.

Lemma removals_replay (gone : list (string * Description)) :
  Forall (λ kd, sysPath kd.2 = kd.1) gone →
  ∀ m : gmap string Description,
    foldl (λ m kd, delete kd.1 m) m gone
       = foldl replay1 m ((λ kd, deviceRemoved kd.2) <$> gone).
Proof.
  induction 1 as [|[k d] gone Hk _ IH]; intros m; [reflexivity|].
  cbn in Hk |- *. rewrite Hk. apply IH.
Qed.

Lemma removals_lookup (gone : list (string * Description)) (k : string) :
  ∀ m : gmap string Description,
    foldl (λ m kd, delete kd.1 m) m gone !! k
       = if decide (k ∈ gone.*1) then None else m !! k.
Proof.
  induction gone as [|[k0 d0] gone IH]; intros m.
  - cbn. case_decide as Hin; [|done]. by apply elem_of_nil in Hin.
  - cbn [foldl fst]. rewrite IH, fmap_cons. cbn [fst].
    destruct (decide (k ∈ gone.*1)) as [Hin|Hin].
    + rewrite decide_True; [done|]. by apply list_elem_of_further.
    + destruct (decide (k = k0)) as [->|Hne].
      * rewrite lookup_delete_eq, decide_True; [done|]. apply list_elem_of_here.
      * rewrite lookup_delete_ne by done.
        rewrite decide_False; [done|].
        rewrite not_elem_of_cons. done.
Qed.

Lemma countAdded_removals (gone : list (string * Description)) (k : string) :
  countAdded k ((λ kd, deviceRemoved kd.2) <$> gone) = 0.
Proof. unfold countAdded. induction gone; [reflexivity|exact IHgone]. Qed.

Lemma countRemoved_removals (P : string → Prop) `{!∀ x, Decision (P x)}
    (l : list (string * Description)) (k : string) :
  NoDup l.*1 →
  Forall (λ kd, sysPath kd.2 = kd.1) l →
  countRemoved k ((λ kd, deviceRemoved kd.2) <$> filter (λ kd, P kd.1) l)
  = if decide (k ∈ l.*1 ∧ P k) then 1 else 0.
Proof.
  induction l as [|[k0 d0] l IH]; intros Hnd Hkeys.
  - cbn. rewrite decide_False; [done|]. intros [Hin _]. by apply elem_of_nil in Hin.
  - rewrite fmap_cons in Hnd |- *. cbn [fst] in Hnd |- *.
    apply NoDup_cons in Hnd as [Hfresh Hnd].
    apply Forall_cons in Hkeys as [Hk0 Hkeys]. cbn in Hk0.
    specialize (IH Hnd Hkeys).
    rewrite filter_cons. cbn [fst].
    destruct (decide (P k0)) as [HP|HP].
    + rewrite fmap_cons.
      change (?x :: ?l) with ([x] ++ l) at 1.
      rewrite countRemoved_app, IH. unfold countRemoved at 1. cbn.
      rewrite Hk0. destruct (decide (k0 = k)) as [->|Hne].
      * rewrite bool_decide_eq_true_2 by done.
        rewrite decide_False by (intros [? _]; done).
        rewrite decide_True; [done|]. split; [apply list_elem_of_here|done].
      * rewrite bool_decide_eq_false_2 by done. cbn.
        destruct (decide (k ∈ l.*1 ∧ P k)) as [[Hin Hp]|Hno].
        -- rewrite decide_True; [done|]. split; [by apply list_elem_of_further|done].
        -- rewrite decide_False; [done|]. intros [Hin Hp]. apply Hno.
           apply elem_of_cons in Hin as [->|Hin]; done.
    + rewrite IH.
      destruct (decide (k ∈ l.*1 ∧ P k)) as [[Hin Hp]|Hno].
      * rewrite decide_True; [done|]. split; [by apply list_elem_of_further|done].
      * rewrite decide_False; [done|]. intros [Hin Hp]. apply Hno.
        apply elem_of_cons in Hin as [->|Hin]; done.
Qed.

Lemma vanished_keys (known : gmap string Description) (present : list string)
    (k : string) :
  k ∈ (vanished known present).*1 ↔ is_Some (known !! k) ∧ k ∉ present.
Proof.
  unfold vanished. rewrite list_elem_of_fmap. split.
  - intros ([k' d] & -> & Hin). apply list_elem_of_filter in Hin as [Hp Hin].
    apply elem_of_map_to_list in Hin. split; [by exists d|done].
  - intros [[d Hd] Hp]. exists (k, d). split; [done|].
    apply list_elem_of_filter. split; [done|]. by apply elem_of_map_to_list.
Qed.

Lemma vanished_keyed (known : gmap string Description) (present : list string) :
  keyed known → Forall (λ kd, sysPath kd.2 = kd.1) (vanished known present).
Proof.
  intros Hkeyed. unfold vanished.
  apply Forall_forall. intros kd Hin.
  apply list_elem_of_filter in Hin as [_ Hin].
  revert kd Hin. apply Forall_forall. by apply keyed_list.
Qed.

Lemma countRemoved_vanished (known : gmap string Description)
    (present : list string) (k : string) :
  keyed known →
  countRemoved k ((λ kd, deviceRemoved kd.2) <$> vanished known present)
  = match known !! k with
    | Some _ => if decide (k ∈ present) then 0 else 1
    | None => 0
    end.
Proof.
  intros Hkeyed. unfold vanished.
  pose proof (countRemoved_removals (λ k, k ∉ present) (map_to_list known) k
                (NoDup_fst_map_to_list known) (keyed_list known Hkeyed)) as Hcount.
  cbn beta in Hcount. rewrite Hcount. clear Hcount.
  destruct (known !! k) as [d|] eqn:Hk.
  - destruct (decide (k ∈ present)) as [Hin|Hout].
    + rewrite decide_False; [done|]. by intros [_ ?].
    + rewrite decide_True; [done|]. split; [|done].
      apply keys_of_map. by exists d.
  - rewrite decide_False; [done|]. intros [Hin _].
    apply keys_of_map in Hin as [d Hd]. congruence.
Qed.

Lemma scan_unfold (u : Udev) (w : t) :
  ∃ added,
    let gone := vanished (m_known w) (sysPath <$> enumerate u) in
    scan u w
    = ({| m_active := m_active w;
          m_known := foldl (λ m kd, delete kd.1 m)
                           (foldl replay1 (m_known w) added) gone |},
       added ++ ((λ kd, deviceRemoved kd.2) <$> gone)) ∧
    (∀ k, foldl replay1 (m_known w) added !! k
          = match m_known w !! k with
            | Some d => Some d
            | None => firstWithPath k (enumerate u)
            end) ∧
    (∀ k, countAdded k added
          = match m_known w !! k, firstWithPath k (enumerate u) with
            | None, Some _ => 1
            | _, _ => 0
            end) ∧
    (∀ k, countRemoved k added = 0).
Proof.
  destruct (announce_fold (enumerate u) (m_known w) [])
    as (added & Hrun & Hmap & Hadd & Hrem).
  exists added. cbn zeta. split; [|done].
  unfold DeviceWatcher.scan. by rewrite Hrun.
Qed.

(** What a scan leaves under a path. *)
Lemma scan_lookup (u : Udev) (w : t) (k : string) :
  m_known (scan u w).1 !! k
  = match m_known w !! k, firstWithPath k (enumerate u) with
    | Some d, Some _ => Some d
    | None, Some d => Some d
    | _, None => None
    end.
Proof.
  destruct (scan_unfold u w) as (added & Hscan & Hmap & _).
  cbn zeta in Hscan. rewrite Hscan. cbn [fst m_known].
  rewrite removals_lookup, Hmap.
  destruct (firstWithPath k (enumerate u)) as [d|] eqn:Hfirst.
  - rewrite decide_False; [by destruct (m_known w !! k)|].
    rewrite vanished_keys. intros [_ Hout].
    apply firstWithPath_None in Hout. congruence.
  - apply firstWithPath_None in Hfirst.
    destruct (m_known w !! k) as [d|] eqn:Hk; [|by case_decide].
    rewrite decide_True; [done|]. apply vanished_keys. split; [by exists d|done].
Qed.

(** What a scan emits about a path. *)
Lemma scan_counts (u : Udev) (w : t) (k : string) :
  keyed (m_known w) →
  countAdded k (scan u w).2
  = match m_known w !! k, firstWithPath k (enumerate u) with
    | None, Some _ => 1
    | _, _ => 0
    end ∧
  countRemoved k (scan u w).2
  = match m_known w !! k, firstWithPath k (enumerate u) with
    | Some _, None => 1
    | _, _ => 0
    end.
Proof.
  intros Hkeyed.
  destruct (scan_unfold u w) as (added & Hscan & _ & Hadd & Hrem).
  cbn zeta in Hscan. rewrite Hscan. cbn [snd].
  rewrite countAdded_app, countRemoved_app, Hadd, Hrem.
  rewrite countAdded_removals, countRemoved_vanished by done.
  split; [lia|]. cbn.
  destruct (m_known w !! k) as [d|]; [|done].
  destruct (firstWithPath k (enumerate u)) as [d'|] eqn:Hfirst.
  - rewrite decide_True; [done|].
    destruct (decide (k ∈ sysPath <$> enumerate u)) as [|Hout]; [done|].
    apply firstWithPath_None in Hout. congruence.
  - apply firstWithPath_None in Hfirst. by rewrite decide_False.
Qed.

(** A scan right after a scan, udev unchanged, changes and emits nothing. *)
Lemma scan_again (u : Udev) (w : t) :
  scan u (scan u w).1 = ((scan u w).1, []).
Proof.
  pose proof (scan_lookup u w) as Hlookup.
  assert (m_active (scan u w).1 = m_active w) as Hactive by reflexivity.
  destruct (scan u w) as [w' out]. cbn [fst] in *.
  unfold DeviceWatcher.scan.
  rewrite announce_known; cbn [fst snd].
  - assert (vanished (m_known w') (sysPath <$> enumerate u) = []) as ->.
    { unfold vanished. apply filter_none, Forall_forall.
      intros [k d] Hin Hout. cbn in Hout.
      apply elem_of_map_to_list in Hin. rewrite Hlookup in Hin.
      apply firstWithPath_None in Hout. rewrite Hout in Hin.
      by destruct (m_known w !! k). }
    by destruct w'.
  - apply Forall_forall. intros d Hd. rewrite Hlookup.
    destruct (firstWithPath (sysPath d) (enumerate u)) as [d'|] eqn:Hfirst.
    + by destruct (m_known w !! sysPath d).
    + apply firstWithPath_None in Hfirst. destruct Hfirst.
      apply list_elem_of_fmap. by exists d.
Qed.

(** C1.  The diff of [scan], path by path.  A path of the filtered
    enumeration that the known map does not hold gets one added
    notification and enters the map; a path the known map holds and the
    enumeration does not gets one removed notification and leaves the
    map; a path in both gets no notification and keeps the description
    the map had; a path in neither gets nothing.  So a scan over an
    empty map emits one added notification per visible path and no
    removed one, and a scan that follows a scan with udev unchanged
    emits nothing and changes nothing. *)
Theorem scan_diffs_against_known (u : Udev) (w : t) (k : string) :
  keyed (m_known w) →
  let visible := enumerate u in
  let r := scan u w in
  countAdded k r.2
    = match m_known w !! k, firstWithPath k visible with
      | None, Some _ => 1
      | _, _ => 0
      end ∧
  countRemoved k r.2
    = match m_known w !! k, firstWithPath k visible with
      | Some _, None => 1
      | _, _ => 0
      end ∧
  m_known r.1 !! k
    = match m_known w !! k, firstWithPath k visible with
      | Some d, Some _ => Some d
      | None, Some d => Some d
      | _, None => None
      end ∧
  (∀ active,
     let first := scan u {| m_active := active; m_known := ∅ |} in
     countAdded k first.2
       = match firstWithPath k visible with Some _ => 1 | None => 0 end ∧
     countRemoved k first.2 = 0 ∧
     m_known first.1 !! k = firstWithPath k visible) ∧
  scan u r.1 = (r.1, []).
Proof.
  intros Hkeyed. cbn zeta.
  destruct (scan_counts u w k Hkeyed) as [Hadd Hrem].
  split; [exact Hadd|]. split; [exact Hrem|].
  split; [apply scan_lookup|]. split; [|apply scan_again].
  intros active.
  destruct (scan_counts u {| m_active := active; m_known := ∅ |} k)
    as [Hadd0 Hrem0]; [apply map_Forall_empty|].
  rewrite Hadd0, Hrem0, scan_lookup. cbn [m_known].
  rewrite lookup_empty.
  by destruct (firstWithPath k (enumerate u)).
Qed.

(** *** The known map against the trace of notifications *)

Local Abbreviation step := (Discovery.step setupEnumerator isVisible).
Local Abbreviation run := (Discovery.run setupEnumerator isVisible).

Lemma keyed_replay1 (m : gmap string Description) (sig : Signal) :
  keyed m → keyed (replay1 m sig).
Proof.
  intros Hkeyed k d. destruct sig as [d0|d0]; cbn.
  - intros [[<- <-]|[_ Hk]]%lookup_insert_Some; [done|by apply Hkeyed].
  - intros [_ Hk]%lookup_delete_Some. by apply Hkeyed.
Qed.

Lemma keyed_replay (out : list Signal) :
  ∀ m : gmap string Description, keyed m → keyed (foldl replay1 m out).
Proof.
  induction out as [|sig out IH]; intros m Hkeyed; [done|].
  cbn. by apply IH, keyed_replay1.
Qed.

Lemma scan_replay (u : Udev) (w : t) :
  keyed (m_known w) →
  m_known (scan u w).1 = foldl replay1 (m_known w) (scan u w).2.
Proof.
  intros Hkeyed.
  destruct (scan_unfold u w) as (added & Hscan & _).
  cbn zeta in Hscan. rewrite Hscan. cbn [fst snd m_known].
  rewrite replay_app. apply removals_replay. by apply vanished_keyed.
Qed.

Lemma onEvent_fold (events : list RawEvent) :
  ∀ (m : gmap string Description) (out : list Signal),
  keyed m →
  ∃ new, foldl (onEvent isVisible) (m, out) events
         = (foldl replay1 m new, out ++ new).
Proof.
  induction events as [|ev events IH]; intros m out Hkeyed.
  - exists []. cbn. by rewrite app_nil_r.
  - cbn [foldl].
    assert (∃ one, onEvent isVisible (m, out) ev
                   = (foldl replay1 m one, out ++ one)) as [one Hone].
    { unfold onEvent. cbn [fst snd].
      destruct (ev_device ev) as [d|]; [|exists []; cbn; by rewrite app_nil_r].
      destruct (ev_action ev).
      - destruct (isVisible d); [|exists []; cbn; by rewrite app_nil_r].
        unfold DeviceWatcher.announce. cbn [fst snd].
        destruct (m !! sysPath d); [exists []; cbn; by rewrite app_nil_r|].
        by exists [deviceAdded d].
      - destruct (m !! sysPath d) as [old|] eqn:Hold;
          [|exists []; cbn; by rewrite app_nil_r].
        exists [deviceRemoved old]. cbn. by rewrite (Hkeyed _ _ Hold).
      - exists []. cbn. by rewrite app_nil_r. }
    rewrite Hone.
    destruct (IH (foldl replay1 m one) (out ++ one)) as [new Hnew];
      [by apply keyed_replay|].
    exists (one ++ new). by rewrite Hnew, replay_app, app_assoc.
Qed.

(** Every operation replays what it emits onto the map it found. *)
Lemma step_replay (op : Op) (w : t) :
  keyed (m_known w) →
  m_known (step op w).1 = foldl replay1 (m_known w) (step op w).2.
Proof.
  intros Hkeyed. destruct op as [u|u active|events]; cbn [Discovery.step].
  - by apply scan_replay.
  - unfold setActive. destruct active; [|done].
    destruct (udev_monitor_new u); [|done].
    cbn [fst snd]. by rewrite scan_replay.
  - unfold onMonitorReady.
    destruct (onEvent_fold events (m_known w) [] Hkeyed) as [new Hnew].
    by rewrite Hnew.
Qed.

Lemma run_snoc (ops : list Op) (op : Op) :
  run (ops ++ [op])
  = ((step op (run ops).1).1, (run ops).2 ++ (step op (run ops).1).2).
Proof. unfold Discovery.run. by rewrite foldl_app. Qed.

Lemma run_replay (ops : list Op) :
  keyed (m_known (run ops).1) ∧ m_known (run ops).1 = replay (run ops).2.
Proof.
  induction ops as [|op ops [Hkeyed Hmap]] using rev_ind.
  - split; [apply map_Forall_empty|reflexivity].
  - rewrite run_snoc. cbn [fst snd].
    assert (m_known (step op (run ops).1).1
            = replay ((run ops).2 ++ (step op (run ops).1).2)) as Hstep.
    { unfold replay. rewrite replay_app. fold (replay (run ops).2).
      rewrite <- Hmap. by apply step_replay. }
    split; [|exact Hstep]. rewrite Hstep.
    apply keyed_replay, map_Forall_empty.
Qed.

(** The same two counts at whatever state the engine has reached: there
    the known map is keyed by construction. *)
Lemma scan_counts_reachable (ops : list Op) (u : Udev) (k : string) :
  countAdded k (scan u (run ops).1).2
  = match m_known (run ops).1 !! k, firstWithPath k (enumerate u) with
    | None, Some _ => 1
    | _, _ => 0
    end ∧
  countRemoved k (scan u (run ops).1).2
  = match m_known (run ops).1 !! k, firstWithPath k (enumerate u) with
    | Some _, None => 1
    | _, _ => 0
    end.
Proof. apply scan_counts. by destruct (run_replay ops). Qed.

Lemma announced_snoc (trace : list Signal) (sig : Signal) (k : string) :
  announced (trace ++ [sig]) k ↔
  match sig with
  | deviceAdded d => sysPath d = k ∨ announced trace k
  | deviceRemoved d => sysPath d ≠ k ∧ announced trace k
  end.
Proof.
  split.
  - intros (before & d0 & after & Heq & Hk & Hafter).
    destruct after as [|x after _] using rev_ind.
    + apply app_inj_tail in Heq as [_ ->]. by left.
    + change (deviceAdded d0 :: after ++ [x])
        with ((deviceAdded d0 :: after) ++ [x]) in Heq.
      rewrite app_assoc in Heq. apply app_inj_tail in Heq as [-> ->].
      assert (announced (before ++ deviceAdded d0 :: after) k) as Hrest.
      { exists before, d0, after. repeat split; [done|].
        intros d' Hin. apply Hafter, elem_of_app. by left. }
      destruct x as [d|d]; [by right|]. split; [|done].
      apply Hafter, elem_of_app. right. apply list_elem_of_here.
  - destruct sig as [d|d].
    + intros [Hk|(before & d0 & after & -> & Hk & Hafter)].
      * exists trace, d, []. repeat split; [done|].
        intros d' Hin. by apply elem_of_nil in Hin.
      * exists before, d0, (after ++ [deviceAdded d]).
        split; [by rewrite <- app_assoc|]. split; [done|].
        intros d' [Hin|Hin]%elem_of_app; [by apply Hafter|].
        by apply list_elem_of_singleton in Hin.
    + intros [Hne (before & d0 & after & -> & Hk & Hafter)].
      exists before, d0, (after ++ [deviceRemoved d]).
      split; [by rewrite <- app_assoc|]. split; [done|].
      intros d' [Hin|Hin]%elem_of_app; [by apply Hafter|].
      apply list_elem_of_singleton in Hin. by injection Hin as ->.
Qed.

(** Replaying a trace keeps exactly the paths announced and not
    withdrawn since. *)
Lemma replay_announced (trace : list Signal) (k : string) :
  k ∈ dom (replay trace) ↔ announced trace k.
Proof.
  rewrite elem_of_dom.
  induction trace as [|sig trace IH] using rev_ind.
  - unfold replay. cbn. rewrite lookup_empty. split; [by intros [? ?]|].
    intros (before & d & after & Heq & _). by destruct before.
  - rewrite announced_snoc. unfold replay. rewrite replay_app.
    fold (replay trace). destruct sig as [d|d]; cbn.
    + rewrite lookup_insert_is_Some', IH. done.
    + rewrite lookup_delete_is_Some, IH. done.
Qed.

(** C2.  In every state the engine reaches from its construction by
    scans, activations, deactivations and monitor events, the known map
    holds exactly the paths with an added notification and no removed
    notification after it; it is the replay of the notifications
    emitted so far, and one more operation, whichever it is, keeps it
    so. *)
Theorem known_map_is_what_was_announced (ops : list Op) (op : Op) (k : string) :
  let st := run ops in
  let r := step op st.1 in
  (k ∈ dom (m_known st.1) ↔ announced st.2 k) ∧
  m_known st.1 = replay st.2 ∧
  (k ∈ dom (m_known r.1) ↔ announced (st.2 ++ r.2) k) ∧
  m_known r.1 = replay (st.2 ++ r.2).
Proof.
  cbn zeta.
  destruct (run_replay ops) as [_ Hnow].
  destruct (run_replay (ops ++ [op])) as [_ Hnext].
  rewrite run_snoc in Hnext. cbn [fst snd] in Hnext.
  rewrite Hnow at 1. rewrite Hnext at 1.
  rewrite !replay_announced. done.
Qed.

End DiscoveryFacts.

(** The mouse is known and no longer visible, the keyboard is new: the
    scan announces the keyboard once. *)
Lemma scan_diffs_against_known_witness :
  let w := {| DeviceWatcher.m_active := true;
              DeviceWatcher.m_known := {[ sysPath Sample.mouse := Sample.mouse ]} |} in
  Discovery.keyed (DeviceWatcher.m_known w) ∧
  DeviceWatcher.countAdded (sysPath Sample.keyboard)
    (DeviceWatcher.scan (λ _, true)
       (FilteredDeviceWatcher.isVisible Sample.filter3) Sample.udev w).2 = 1.
Proof.
  cbn zeta.
  assert (Discovery.keyed
            (DeviceWatcher.m_known
               {| DeviceWatcher.m_active := true;
                  DeviceWatcher.m_known := {[ sysPath Sample.mouse := Sample.mouse ]} |}))
    as Hkeyed.
  { apply map_Forall_singleton. reflexivity. }
  split; [exact Hkeyed|].
  destruct (scan_diffs_against_known (λ _, true)
              (FilteredDeviceWatcher.isVisible Sample.filter3) Sample.udev _
              (sysPath Sample.keyboard) Hkeyed) as (Hadd & _).
  rewrite Hadd. vm_compute. reflexivity.
Defined.

(** The scenario of the specification: of a visible keyboard and a mouse
    that is not, the first scan announces the keyboard alone. *)
Example first_scan_scenario :
  DeviceWatcher.scan (λ _, true) (FilteredDeviceWatcher.isVisible Sample.filter3)
    Sample.udev DeviceWatcher.create
  = ({| DeviceWatcher.m_active := false;
        DeviceWatcher.m_known := {[ sysPath Sample.keyboard := Sample.keyboard ]} |},
     [DeviceWatcher.deviceAdded Sample.keyboard]).
Proof. vm_compute. reflexivity. Qed.

(** ... the service then tracks it, and quits when udev reports it gone. *)
Example service_scenario :
  let up := Service.init Sample.HIDVERSION Sample.serial (λ _, true)
              (FilteredDeviceWatcher.isVisible Sample.filter3) Sample.hid
              Sample.udev (Sample.service true) in
  let down := Service.deliver Sample.HIDVERSION Sample.serial Sample.hid
                [DeviceWatcher.deviceRemoved Sample.keyboard] (Service.state up) in
  Service.m_devices (Service.state up) = {[ devPath Sample.keyboard := Sample.manager ]} ∧
  Service.m_active (Service.state up) = true ∧
  Registry.managerAddedCount (Service.trace up) = 1 ∧
  Service.m_devices (Service.state down) = ∅ ∧
  Registry.quitCount (Service.trace down) = 1.
Proof. vm_compute. repeat split. Qed.

(** ** The slots under any sequence of events *)

Section LoopFacts.

Import Service Registry Loop.

Variable KEYLEDS_ERROR_HIDVERSION : Z.
Variable serial : DeviceManager → string.

Local Abbreviation dispatch := (Loop.dispatch KEYLEDS_ERROR_HIDVERSION serial).
Local Abbreviation dispatchAll := (Loop.dispatchAll KEYLEDS_ERROR_HIDVERSION serial).

(** The three things a slot can do: nothing but perhaps a line on the
    error channel, store a new manager, or drop a stored one. *)
Lemma dispatch_cases (ev : Event) (s : t) :
  (∃ log, dispatch ev s = (Normal (), s, log) ∧
          (log = [] ∨ ∃ line, log = [Cerr line])) ∨
  (∃ hid d dev,
     ev = Added hid d ∧
     dispatch ev s
     = (Normal (),
        set_devices (<[devPath d := mkDeviceManager d dev]> (m_devices s)) s,
        [Emit (deviceManagerAdded (mkDeviceManager d dev)) (m_devices s);
         Connect (mkDeviceManager d dev);
         Cout (openedLine serial (mkDeviceManager d dev))]
        ++ match m_devices s !! devPath d with
           | Some old => [Destroy old]
           | None => []
           end)) ∨
  (∃ m,
     m_devices s !! eventPath ev = Some m ∧
     dispatch ev s
     = (Normal (),
        set_devices (delete (eventPath ev) (m_devices s)) s,
        [Cout ("Removing device " +:+ serial m);
         Emit (deviceManagerRemoved m) (delete (eventPath ev) (m_devices s))]
        ++ (if bool_decide (delete (eventPath ev) (m_devices s) = ∅)
               && autoQuit (m_configuration s)
            then [Quit] else [])
        ++ [Destroy m])).
Proof.
  destruct ev as [hid d|d|sender]; cbn [Loop.dispatch eventPath].
  - destruct (hid (devNode d)) as [error|dev] eqn:Hopen.
    + left. rewrite (added_failed _ _ _ _ _ _ Hopen).
      eexists. split; [reflexivity|].
      destruct (bool_decide (code error ≠ KEYLEDS_ERROR_HIDVERSION)); eauto.
    + right. left. exists hid, d, dev. split; [done|].
      apply added_opened, Hopen.
  - destruct (m_devices s !! devPath d) as [m|] eqn:Hm.
    + right. right. exists m. split; [done|]. by apply removed_tracked.
    + left. exists []. split; [by apply removed_untracked|by left].
  - unfold onDeviceLoopFinished.
    destruct (m_devices s !! devPath (description sender)) as [m|] eqn:Hm.
    + right. right. exists m. split; [done|]. by apply removed_tracked.
    + left. exists []. split; [by apply removed_untracked|by left].
Qed.

Lemma dispatch_returns (ev : Event) (s : t) :
  outcome (dispatch ev s) = Normal ().
Proof.
  destruct (dispatch_cases ev s)
    as [(log & -> & _)|[(hid & d & dev & _ & ->)|(m & _ & ->)]]; reflexivity.
Qed.

Lemma dispatchAll_cons (ev : Event) (rest : list Event) (s : t) :
  dispatchAll (ev :: rest) s
  = (outcome (dispatchAll rest (state (dispatch ev s))),
     state (dispatchAll rest (state (dispatch ev s))),
     trace (dispatch ev s) ++ trace (dispatchAll rest (state (dispatch ev s)))).
Proof.
  cbn [Loop.dispatchAll]. unfold bind.
  pose proof (dispatch_returns ev s) as Hret.
  destruct (dispatch ev s) as [[o s1] log1]. cbn in Hret. subst o. cbn.
  by destruct (dispatchAll rest s1) as [[o2 s2] log2].
Qed.

(** A relation between the state before, the state after and the trace
    that holds of every slot and composes holds of every sequence. *)
Lemma dispatchAll_relates (R : t → t → list Effect → Prop) :
  (∀ s, R s s []) →
  (∀ s1 s2 s3 l1 l2, R s1 s2 l1 → R s2 s3 l2 → R s1 s3 (l1 ++ l2)) →
  (∀ ev s, R s (state (dispatch ev s)) (trace (dispatch ev s))) →
  ∀ evs s, R s (state (dispatchAll evs s)) (trace (dispatchAll evs s)).
Proof.
  intros Hnil Happ Hstep evs.
  induction evs as [|ev rest IH]; intros s; [apply Hnil|].
  rewrite dispatchAll_cons. unfold state at 1, trace at 1. cbn [fst snd].
  eapply Happ; [apply Hstep|apply IH].
Qed.

Lemma managerAddedCount_app (l1 l2 : list Effect) :
  managerAddedCount (l1 ++ l2) = managerAddedCount l1 + managerAddedCount l2.
Proof. unfold managerAddedCount. by rewrite List.filter_app, length_app. Qed.

Lemma managerRemovedCount_app (l1 l2 : list Effect) :
  managerRemovedCount (l1 ++ l2) = managerRemovedCount l1 + managerRemovedCount l2.
Proof. unfold managerRemovedCount. by rewrite List.filter_app, length_app. Qed.

Lemma quitCount_app (l1 l2 : list Effect) :
  quitCount (l1 ++ l2) = quitCount l1 + quitCount l2.
Proof. unfold quitCount. by rewrite List.filter_app, length_app. Qed.

Lemma destroyCount_app (l1 l2 : list Effect) :
  destroyCount (l1 ++ l2) = destroyCount l1 + destroyCount l2.
Proof. unfold destroyCount. by rewrite List.filter_app, length_app. Qed.

Lemma observe_app (view : gmap string DeviceManager) (l1 l2 : list Effect) :
  observe view (l1 ++ l2) = observe (observe view l1) l2.
Proof. apply foldl_app. Qed.

Lemma outcome_triple {A} (o : Outcome A) (s : t) (log : list Effect) :
  outcome (o, s, log) = o.
Proof. reflexivity. Qed.

Lemma state_triple {A} (o : Outcome A) (s : t) (log : list Effect) :
  state (o, s, log) = s.
Proof. reflexivity. Qed.

Lemma trace_triple {A} (o : Outcome A) (s : t) (log : list Effect) :
  trace (o, s, log) = log.
Proof. reflexivity. Qed.

(** What one slot keeps when the registry is keyed. *)
Lemma dispatch_keyed (ev : Event) (s : t) :
  registryKeyed (m_devices s) →
  registryKeyed (m_devices (state (dispatch ev s))) ∧
  m_devices (state (dispatch ev s))
    = observe (m_devices s) (trace (dispatch ev s)) ∧
  Forall removedUnlisted (trace (dispatch ev s)).
Proof.
  intros Hkeyed.
  destruct (dispatch_cases ev s)
    as [(log & -> & Hlog)|[(hid & d & dev & _ & ->)|(m & Hm & ->)]];
    rewrite state_triple, trace_triple.
  - split; [done|].
    destruct Hlog as [->|[line ->]]; split; try done; by repeat constructor.
  - cbn [m_devices set_devices]. split; [|split].
    + intros p m [[<- <-]|[_ Hp]]%lookup_insert_Some; [done|by apply Hkeyed].
    + by destruct (m_devices s !! devPath d).
    + destruct (m_devices s !! devPath d); by repeat constructor.
  - cbn [m_devices set_devices].
    pose proof (Hkeyed _ _ Hm) as Hpath. split; [|split].
    + intros p m' [_ Hp]%lookup_delete_Some. by apply Hkeyed.
    + destruct (bool_decide (delete (eventPath ev) (m_devices s) = ∅)
                && autoQuit (m_configuration s)); cbn; by rewrite Hpath.
    + assert (removedUnlisted
                (Emit (deviceManagerRemoved m)
                      (delete (eventPath ev) (m_devices s)))) as Hunlisted.
      { cbn. rewrite Hpath. apply lookup_delete_eq. }
      destruct (bool_decide (delete (eventPath ev) (m_devices s) = ∅)
                && autoQuit (m_configuration s)); by repeat constructor.
Qed.

(** What one slot does whatever the registry. *)
Lemma dispatch_counts (ev : Event) (s : t) :
  let r := dispatch ev s in
  size (m_devices s) + managerAddedCount (trace r)
    = size (m_devices (state r)) + destroyCount (trace r) ∧
  quitCount (trace r) ≤ managerRemovedCount (trace r) ∧
  (autoQuit (m_configuration s) = false → quitCount (trace r) = 0) ∧
  m_configuration (state r) = m_configuration s ∧
  m_deviceWatcher (state r) = m_deviceWatcher s ∧
  m_active (state r) = m_active s ∧
  (∀ q, q ≠ eventPath ev → m_devices (state r) !! q = m_devices s !! q).
Proof.
  cbn zeta.
  destruct (dispatch_cases ev s)
    as [(log & -> & Hlog)|[(hid & d & dev & -> & ->)|(m & Hm & ->)]];
    rewrite !state_triple, !trace_triple.
  - destruct Hlog as [->|[line ->]]; cbn; repeat split; lia.
  - cbn [m_devices set_devices m_configuration m_deviceWatcher m_active eventPath].
    assert (size (<[devPath d := mkDeviceManager d dev]> (m_devices s))
            = match m_devices s !! devPath d with
              | Some _ => size (m_devices s)
              | None => S (size (m_devices s))
              end) as Hsize.
    { destruct (m_devices s !! devPath d) eqn:Hold.
      - by apply map_size_insert_Some.
      - by apply map_size_insert_None. }
    rewrite Hsize.
    destruct (m_devices s !! devPath d) as [old|]; cbn;
      repeat split; try lia; intros q Hq; by rewrite lookup_insert_ne.
  - cbn [m_devices set_devices m_configuration m_deviceWatcher m_active].
    assert (size (m_devices s) = S (size (delete (eventPath ev) (m_devices s))))
      as Hsize.
    { rewrite <- (insert_delete_id _ _ _ Hm) at 1.
      apply map_size_insert_None, lookup_delete_eq. }
    rewrite Hsize.
    destruct (autoQuit (m_configuration s));
      destruct (bool_decide (delete (eventPath ev) (m_devices s) = ∅));
      cbn; repeat split; try lia; try done;
      intros q Hq; by rewrite lookup_delete_ne.
Qed.

(** X2.  Starting from a registry in which every manager sits under the
    device path of its own description, every sequence of events leaves
    such a registry. *)
Theorem registry_stays_keyed (evs : list Event) (s : t) :
  registryKeyed (m_devices s) →
  registryKeyed (m_devices (state (dispatchAll evs s))).
Proof.
  apply (dispatchAll_relates
           (λ s s' _, registryKeyed (m_devices s) → registryKeyed (m_devices s'))).
  - done.
  - intros s1 s2 s3 _ _ H12 H23 H1. auto.
  - intros ev s0 H0. by apply dispatch_keyed.
Qed.

(** X3.  In such a registry a manager that stops takes itself out: the
    entry erased is its own, [deviceManagerRemoved] carries it, it is
    deleted, and nothing else leaves the registry. *)
Theorem stopped_manager_removes_itself (sender : DeviceManager) (p : string) (s : t) :
  registryKeyed (m_devices s) →
  m_devices s !! p = Some sender →
  let r := onDeviceLoopFinished serial sender s in
  m_devices (state r) = delete p (m_devices s) ∧
  Emit (deviceManagerRemoved sender) (delete p (m_devices s)) ∈ trace r ∧
  Destroy sender ∈ trace r ∧
  managerRemovedCount (trace r) = 1 ∧
  destroyCount (trace r) = 1.
Proof.
  intros Hkeyed Hp. cbn zeta.
  pose proof (Hkeyed _ _ Hp) as Hpath. unfold onDeviceLoopFinished.
  rewrite <- Hpath in Hp |- *.
  rewrite (removed_tracked serial _ s sender Hp), state_triple, trace_triple.
  split; [reflexivity|].
  destruct (bool_decide (delete (devPath (description sender)) (m_devices s) = ∅)
            && autoQuit (m_configuration s)); cbn;
    (split; [apply list_elem_of_further, list_elem_of_here|]);
    (split; [|done]); repeat (apply list_elem_of_here || apply list_elem_of_further).
Qed.

(** X4.  A listener that inserts on [deviceManagerAdded] and deletes on
    [deviceManagerRemoved], by device path, holds the registry itself
    after every sequence of events: a manager that replaces another one
    under the same path is announced and overwrites it in both. *)
Theorem listener_table_is_registry (evs : list Event) (s : t) :
  registryKeyed (m_devices s) →
  m_devices (state (dispatchAll evs s))
  = observe (m_devices s) (trace (dispatchAll evs s)).
Proof.
  intros Hkeyed.
  apply (dispatchAll_relates
           (λ s s' log, registryKeyed (m_devices s) →
                        registryKeyed (m_devices s') ∧
                        m_devices s' = observe (m_devices s) log));
    [| | |exact Hkeyed].
  - done.
  - intros s1 s2 s3 l1 l2 H12 H23 H1.
    destruct (H12 H1) as [H2 Hv2]. destruct (H23 H2) as [H3 Hv3].
    split; [done|]. by rewrite observe_app, <- Hv2.
  - intros ev s0 H0. destruct (dispatch_keyed ev s0 H0) as (? & ? & _). done.
Qed.

Lemma held_lookup (registry : gmap string DeviceManager) (p : string)
    (m : DeviceManager) :
  registry !! p = Some m → held registry ≡ₚ m :: held (delete p registry).
Proof.
  intros Hm. unfold held.
  by rewrite <- (map_to_list_delete _ _ _ Hm), fmap_cons.
Qed.

Lemma held_insert (registry : gmap string DeviceManager) (p : string)
    (m : DeviceManager) :
  registry !! p = None → held (<[p := m]> registry) ≡ₚ m :: held registry.
Proof.
  intros Hfree. unfold held.
  by rewrite (map_to_list_insert _ _ _ Hfree), fmap_cons.
Qed.

Lemma announcedManagers_app (l1 l2 : list Effect) :
  announcedManagers (l1 ++ l2) = announcedManagers l1 ++ announcedManagers l2.
Proof. apply omap_app. Qed.

Lemma deletedManagers_app (l1 l2 : list Effect) :
  deletedManagers (l1 ++ l2) = deletedManagers l1 ++ deletedManagers l2.
Proof. apply omap_app. Qed.

(** One slot moves managers between the registry and the two lists. *)
Lemma dispatch_moves (ev : Event) (s : t) :
  held (m_devices s) ++ announcedManagers (trace (dispatch ev s))
  ≡ₚ held (m_devices (state (dispatch ev s)))
     ++ deletedManagers (trace (dispatch ev s)).
Proof.
  destruct (dispatch_cases ev s)
    as [(log & -> & Hlog)|[(hid & d & dev & -> & ->)|(m & Hm & ->)]];
    rewrite !state_triple, !trace_triple.
  - by destruct Hlog as [->|[line ->]].
  - cbn [m_devices set_devices].
    destruct (m_devices s !! devPath d) as [old|] eqn:Hold; cbn.
    + rewrite <- insert_delete_eq.
      rewrite held_insert by apply lookup_delete_eq.
      rewrite (held_lookup _ _ _ Hold). cbn. solve_Permutation.
    + rewrite held_insert by done. rewrite app_nil_r.
      by rewrite (comm (++)).
  - cbn [m_devices set_devices].
    rewrite (held_lookup _ _ _ Hm).
    destruct (bool_decide (delete (eventPath ev) (m_devices s) = ∅)
              && autoQuit (m_configuration s)); cbn;
      rewrite app_nil_r; by rewrite (comm (++)).
Qed.

(** X5.  No manager is lost, and none is deleted that was not held:
    over every sequence of events, the managers the registry held
    together with the managers announced are, manager for manager, the
    managers the registry holds together with the managers deleted.  In
    numbers: held before plus announced is held after plus deleted. *)
Theorem managers_are_stored_or_deleted (evs : list Event) (s : t) :
  let r := dispatchAll evs s in
  held (m_devices s) ++ announcedManagers (trace r)
    ≡ₚ held (m_devices (state r)) ++ deletedManagers (trace r) ∧
  size (m_devices s) + managerAddedCount (trace r)
    = size (m_devices (state r)) + destroyCount (trace r).
Proof.
  cbn zeta.
  apply (dispatchAll_relates
           (λ s s' log,
              held (m_devices s) ++ announcedManagers log
                ≡ₚ held (m_devices s') ++ deletedManagers log ∧
              size (m_devices s) + managerAddedCount log
                = size (m_devices s') + destroyCount log)).
  - intros s0. split; [|reflexivity]. cbn. by rewrite app_nil_r.
  - intros s1 s2 s3 l1 l2 [Hp12 Hc12] [Hp23 Hc23]. split.
    + rewrite announcedManagers_app, deletedManagers_app.
      rewrite (assoc (++)), Hp12.
      rewrite <- (assoc (++)), (comm (++) (deletedManagers l1)).
      rewrite (assoc (++)), Hp23.
      rewrite <- (assoc (++)). by rewrite (comm (++) (deletedManagers l2)).
    + rewrite managerAddedCount_app, destroyCount_app. lia.
  - intros ev s0. split; [apply dispatch_moves|apply dispatch_counts].
Qed.

(** X6.  The slots change nothing but the registry entries of the paths
    the events are about: the configuration, the watcher, the active
    flag and every other path are as they were. *)
Theorem slots_touch_only_their_paths (evs : list Event) (s : t) (q : string) :
  q ∉ eventPath <$> evs →
  let r := dispatchAll evs s in
  m_devices (state r) !! q = m_devices s !! q ∧
  m_configuration (state r) = m_configuration s ∧
  m_deviceWatcher (state r) = m_deviceWatcher s ∧
  m_active (state r) = m_active s.
Proof.
  cbn zeta. revert s. induction evs as [|ev rest IH]; intros s Hq; [done|].
  rewrite fmap_cons, not_elem_of_cons in Hq. destruct Hq as [Hne Hq].
  rewrite dispatchAll_cons, state_triple.
  destruct (IH (state (dispatch ev s)) Hq) as (-> & -> & -> & ->).
  destruct (dispatch_counts ev s) as (_ & _ & _ & -> & -> & -> & Hother).
  by rewrite Hother.
Qed.

(** X7.  The application is asked to quit at most once per
    [deviceManagerRemoved], and never when auto-quit is off: an added
    notification, an open that fails, a removal of an unknown path never
    quit. *)
Theorem quits_only_with_removals (evs : list Event) (s : t) :
  let r := dispatchAll evs s in
  quitCount (trace r) ≤ managerRemovedCount (trace r) ∧
  (if autoQuit (m_configuration s) then True else quitCount (trace r) = 0).
Proof.
  cbn zeta.
  apply (dispatchAll_relates
           (λ s s' log,
              m_configuration s' = m_configuration s ∧
              quitCount log ≤ managerRemovedCount log ∧
              (if autoQuit (m_configuration s) then True else quitCount log = 0))).
  - intros s0. repeat split; [done|by destruct (autoQuit _)].
  - intros s1 s2 s3 l1 l2 (Hc12 & Hle12 & Hoff12) (Hc23 & Hle23 & Hoff23).
    rewrite quitCount_app, managerRemovedCount_app. rewrite Hc12 in Hc23, Hoff23.
    split; [done|]. split; [lia|].
    destruct (autoQuit (m_configuration s1)); [done|lia].
  - intros ev s0.
    destruct (dispatch_counts ev s0) as (_ & Hle & Hoff & Hc & _).
    split; [done|]. split; [done|].
    destruct (autoQuit (m_configuration s0)); [done|by apply Hoff].
Qed.

(** X8.  When the slots of [deviceManagerRemoved] run, the registry no
    longer holds the path of the manager the signal carries. *)
Theorem removed_manager_is_unlisted (evs : list Event) (s : t) :
  registryKeyed (m_devices s) →
  Forall removedUnlisted (trace (dispatchAll evs s)).
Proof.
  intros Hkeyed.
  apply (dispatchAll_relates
           (λ s s' log, registryKeyed (m_devices s) →
                        registryKeyed (m_devices s') ∧
                        Forall removedUnlisted log));
    [| | |exact Hkeyed].
  - done.
  - intros s1 s2 s3 l1 l2 H12 H23 H1.
    destruct (H12 H1) as [H2 Hl1]. destruct (H23 H2) as [H3 Hl2].
    split; [done|]. by apply Forall_app.
  - intros ev s0 H0. destruct (dispatch_keyed ev s0 H0) as (? & _ & ?). done.
Qed.

(** X9.  A second removal for the same device path does nothing: when a
    manager has stopped by itself and the watcher then reports the
    device gone (or the other way round), [deviceManagerRemoved] is not
    emitted again. *)
Theorem second_removal_is_noop (d d' : Description) (s : t) :
  devPath d' = devPath d →
  let r := onDeviceRemoved serial d s in
  onDeviceRemoved serial d' (state r) = (Normal (), state r, []).
Proof.
  intros Hpath. cbn zeta. apply removed_untracked. rewrite Hpath.
  destruct (m_devices s !! devPath d) as [m|] eqn:Hm.
  - rewrite (removed_tracked serial d s m Hm), state_triple.
    apply lookup_delete_eq.
  - by rewrite (removed_untracked serial d s Hm), state_triple.
Qed.

(** X10.  Plugging a device in and out brings the service back: for a
    path that is not tracked and an open that succeeds, the added
    notification followed by the removed one ends in the state it
    started from, with one [deviceManagerAdded], one
    [deviceManagerRemoved] and one deletion, all of the same manager. *)
Theorem added_then_removed_restores (hid : string → Device_error + Device)
    (d : Description) (dev : Device) (s : t) :
  m_devices s !! devPath d = None →
  hid (devNode d) = inr dev →
  let manager := {| description := d; device := dev |} in
  let r := dispatchAll [Added hid d; Removed d] s in
  state r = s ∧
  trace r = [Emit (deviceManagerAdded manager) (m_devices s);
             Connect manager;
             Cout (openedLine serial manager);
             Cout ("Removing device " +:+ serial manager);
             Emit (deviceManagerRemoved manager) (m_devices s)]
            ++ (if bool_decide (m_devices s = ∅) && autoQuit (m_configuration s)
                then [Quit] else [])
            ++ [Destroy manager].
Proof.
  intros Hfree Hopen. cbn zeta.
  rewrite !dispatchAll_cons. cbn [Loop.dispatchAll Loop.dispatch].
  rewrite (added_opened KEYLEDS_ERROR_HIDVERSION serial hid d s dev Hopen).
  rewrite Hfree, !state_triple, !trace_triple.
  rewrite (removed_tracked serial d _ (mkDeviceManager d dev));
    [|cbn; apply lookup_insert_eq].
  rewrite !state_triple, !trace_triple.
  cbn [m_devices set_devices m_configuration].
  rewrite (delete_insert_id _ _ _ Hfree).
  split; [by destruct s|].
  cbn. by rewrite app_nil_r.
Qed.

(** X11.  An added notification for a path that is already tracked
    replaces the manager without a word: the old manager is deleted, no
    [deviceManagerRemoved] is emitted for it, [deviceManagerAdded] is
    emitted for the new one, and the registry keeps its size. *)
Theorem replacement_is_silent (hid : string → Device_error + Device)
    (d : Description) (dev : Device) (old : DeviceManager) (s : t) :
  m_devices s !! devPath d = Some old →
  hid (devNode d) = inr dev →
  let r := onDeviceAdded KEYLEDS_ERROR_HIDVERSION serial hid d s in
  m_devices (state r) !! devPath d = Some {| description := d; device := dev |} ∧
  size (m_devices (state r)) = size (m_devices s) ∧
  destroyCount (trace r) = 1 ∧
  last (trace r) = Some (Destroy old) ∧
  managerAddedCount (trace r) = 1 ∧
  managerRemovedCount (trace r) = 0.
Proof.
  intros Hold Hopen. cbn zeta.
  rewrite (added_opened KEYLEDS_ERROR_HIDVERSION serial hid d s dev Hopen).
  rewrite Hold, state_triple, trace_triple. cbn [m_devices set_devices].
  split; [apply lookup_insert_eq|].
  split; [by apply map_size_insert_Some|]. done.
Qed.

(** X12.  Auto-quit waits for the last device: a removal that leaves
    other managers in the registry emits [deviceManagerRemoved] and
    does not quit, whatever the option. *)
Theorem no_quit_while_devices_remain (d : Description) (m : DeviceManager) (s : t) :
  m_devices s !! devPath d = Some m →
  delete (devPath d) (m_devices s) ≠ ∅ →
  let r := onDeviceRemoved serial d s in
  quitCount (trace r) = 0 ∧
  managerRemovedCount (trace r) = 1 ∧
  m_devices (state r) = delete (devPath d) (m_devices s).
Proof.
  intros Hm Hrest. cbn zeta.
  rewrite (removed_tracked serial d s m Hm), state_triple, trace_triple.
  by rewrite bool_decide_eq_false_2.
Qed.

Lemma dispatchAll_fields (evs : list Event) (s : t) :
  outcome (dispatchAll evs s) = Normal () ∧
  m_configuration (state (dispatchAll evs s)) = m_configuration s ∧
  m_deviceWatcher (state (dispatchAll evs s)) = m_deviceWatcher s ∧
  m_active (state (dispatchAll evs s)) = m_active s.
Proof.
  revert s. induction evs as [|ev rest IH]; intros s; [done|].
  rewrite dispatchAll_cons, outcome_triple, state_triple.
  destruct (IH (state (dispatch ev s))) as (-> & -> & -> & ->).
  destruct (dispatch_counts ev s) as (_ & _ & _ & -> & -> & -> & _).
  done.
Qed.

(** The watcher's signals through the two connections of the
    constructor are events of the loop. *)
Lemma deliver_dispatchAll (hid : string → Device_error + Device)
    (sigs : list DeviceWatcher.Signal) (s : t) :
  deliver KEYLEDS_ERROR_HIDVERSION serial hid sigs s
  = dispatchAll
      ((λ sig, match sig with
               | DeviceWatcher.deviceAdded d => Added hid d
               | DeviceWatcher.deviceRemoved d => Removed d
               end) <$> sigs) s.
Proof.
  revert s. induction sigs as [|sig rest IH]; intros s; [reflexivity|].
  rewrite fmap_cons. cbn [Service.deliver Loop.dispatchAll]. unfold bind.
  assert (slot KEYLEDS_ERROR_HIDVERSION serial hid sig s
          = dispatch match sig with
                     | DeviceWatcher.deviceAdded d => Added hid d
                     | DeviceWatcher.deviceRemoved d => Removed d
                     end s) as -> by by destruct sig.
  destruct (dispatch _ s) as [[[[]|e] s1] log1]; [|done].
  by rewrite IH.
Qed.

(** X13.  [Service::setActive] sets [m_active] after the watcher's own
    [setActive] has returned: when it returns the flag is the argument,
    and when the watcher throws the exception goes through and the flag
    is the one before the call.  The configuration is not touched. *)
Theorem setActive_sets_flag_last (setupEnumerator isVisible : Description → bool)
    (hid : string → Device_error + Device) (u : DeviceWatcher.Udev)
    (active : bool) (s : t) :
  let r := setActive KEYLEDS_ERROR_HIDVERSION serial setupEnumerator isVisible
             hid u active s in
  match outcome r with
  | Normal _ => m_active (state r) = active
  | Thrown e => m_active (state r) = m_active s ∧ ∃ what, e = WatcherError what
  end ∧
  m_configuration (state r) = m_configuration s.
Proof.
  cbn zeta. unfold setActive, deviceWatcher_setActive, bind, get, put, effect.
  destruct (DeviceWatcher.setActive setupEnumerator isVisible u active
              (m_deviceWatcher s)) as [[err w'] sigs].
  cbn [fst snd]. rewrite deliver_dispatchAll.
  destruct (dispatchAll_fields
              ((λ sig, match sig with
                       | DeviceWatcher.deviceAdded d => Added hid d
                       | DeviceWatcher.deviceRemoved d => Removed d
                       end) <$> sigs) (set_deviceWatcher w' s))
    as (Hret & Hconf & _ & Hflag).
  destruct (dispatchAll _ (set_deviceWatcher w' s)) as [[o sd] logd].
  cbn in Hret, Hconf, Hflag. subst o.
  destruct err as [what|]; cbn; [|done].
  split; [|done]. split; [done|by exists what].
Qed.

End LoopFacts.

Lemma tracking_keyed (quits : bool) :
  Loop.registryKeyed (Service.m_devices (Sample.tracking quits)).
Proof. apply map_Forall_singleton. reflexivity. Qed.

(** The mouse is refused and the keyboard goes away. *)
Lemma registry_stays_keyed_witness :
  Loop.registryKeyed (Service.m_devices (Sample.tracking true)) ∧
  Loop.registryKeyed
    (Service.m_devices
       (Service.state
          (Loop.dispatchAll Sample.HIDVERSION Sample.serial
             [Loop.Added Sample.hid Sample.mouse; Loop.Removed Sample.keyboard]
             (Sample.tracking true)))).
Proof.
  split; [apply tracking_keyed|].
  apply (registry_stays_keyed Sample.HIDVERSION Sample.serial).
  apply tracking_keyed.
Defined.

Lemma stopped_manager_removes_itself_witness :
  Loop.registryKeyed (Service.m_devices (Sample.tracking false)) ∧
  Service.m_devices (Sample.tracking false) !! devPath Sample.keyboard
    = Some Sample.manager ∧
  Service.m_devices
    (Service.state
       (Service.onDeviceLoopFinished Sample.serial Sample.manager
          (Sample.tracking false)))
  = delete (devPath Sample.keyboard) (Service.m_devices (Sample.tracking false)).
Proof.
  split; [apply tracking_keyed|]. split; [reflexivity|].
  apply (stopped_manager_removes_itself Sample.serial Sample.manager
           (devPath Sample.keyboard) (Sample.tracking false)
           (tracking_keyed false) eq_refl).
Defined.

(** The keyboard is announced again, then removed. *)
Lemma listener_table_is_registry_witness :
  let evs := [Loop.Added Sample.hid Sample.bare; Loop.Removed Sample.keyboard] in
  Loop.registryKeyed (Service.m_devices (Sample.tracking true)) ∧
  Loop.observe (Service.m_devices (Sample.tracking true))
    (Service.trace
       (Loop.dispatchAll Sample.HIDVERSION Sample.serial evs (Sample.tracking true)))
  = ∅.
Proof.
  cbn zeta. split; [apply tracking_keyed|].
  rewrite <- (listener_table_is_registry Sample.HIDVERSION Sample.serial _ _
                (tracking_keyed true)).
  vm_compute. reflexivity.
Defined.

(** The keyboard goes away: the mouse's path is not touched. *)
Lemma slots_touch_only_their_paths_witness :
  let evs := [Loop.Removed Sample.keyboard] in
  (devPath Sample.mouse ∉ Loop.eventPath <$> evs) ∧
  Service.m_devices
    (Service.state
       (Loop.dispatchAll Sample.HIDVERSION Sample.serial evs (Sample.tracking true)))
    !! devPath Sample.mouse
  = None.
Proof.
  cbn zeta.
  assert (devPath Sample.mouse
          ∉ Loop.eventPath <$> [Loop.Removed Sample.keyboard]) as Hout.
  { intros Hin. apply list_elem_of_singleton in Hin. discriminate Hin. }
  split; [exact Hout|].
  destruct (slots_touch_only_their_paths Sample.HIDVERSION Sample.serial
              [Loop.Removed Sample.keyboard] (Sample.tracking true)
              (devPath Sample.mouse) Hout) as (-> & _).
  reflexivity.
Defined.

Lemma removed_manager_is_unlisted_witness :
  Loop.registryKeyed (Service.m_devices (Sample.tracking true)) ∧
  Forall Loop.removedUnlisted
    (Service.trace
       (Loop.dispatchAll Sample.HIDVERSION Sample.serial
          [Loop.Stopped Sample.manager] (Sample.tracking true))).
Proof.
  split; [apply tracking_keyed|].
  apply (removed_manager_is_unlisted Sample.HIDVERSION Sample.serial).
  apply tracking_keyed.
Defined.

(** The manager stops, then udev reports the keyboard gone. *)
Lemma second_removal_is_noop_witness :
  devPath Sample.bare = devPath Sample.keyboard ∧
  Registry.managerRemovedCount
    (Service.trace
       (Service.onDeviceRemoved Sample.serial Sample.bare
          (Service.state
             (Service.onDeviceRemoved Sample.serial Sample.keyboard
                (Sample.tracking true)))))
  = 0.
Proof.
  split; [reflexivity|].
  by rewrite (second_removal_is_noop Sample.serial Sample.keyboard Sample.bare
                (Sample.tracking true) eq_refl).
Defined.

Lemma added_then_removed_restores_witness :
  Service.m_devices (Sample.service false) !! devPath Sample.keyboard = None ∧
  Sample.hid (devNode Sample.keyboard) = inr Sample.g810 ∧
  Service.state
    (Loop.dispatchAll Sample.HIDVERSION Sample.serial
       [Loop.Added Sample.hid Sample.keyboard; Loop.Removed Sample.keyboard]
       (Sample.service false))
  = Sample.service false.
Proof.
  split; [reflexivity|]. split; [reflexivity|].
  apply (added_then_removed_restores Sample.HIDVERSION Sample.serial Sample.hid
           Sample.keyboard Sample.g810 (Sample.service false) eq_refl eq_refl).
Defined.

(** The keyboard is announced while it is tracked. *)
Lemma replacement_is_silent_witness :
  Service.m_devices (Sample.tracking true) !! devPath Sample.bare
    = Some Sample.manager ∧
  Sample.hid (devNode Sample.bare) = inr Sample.g810 ∧
  Registry.managerRemovedCount
    (Service.trace
       (Service.onDeviceAdded Sample.HIDVERSION Sample.serial Sample.hid
          Sample.bare (Sample.tracking true)))
  = 0.
Proof.
  split; [reflexivity|]. split; [reflexivity|].
  apply (replacement_is_silent Sample.HIDVERSION Sample.serial Sample.hid
           Sample.bare Sample.g810 Sample.manager (Sample.tracking true)
           eq_refl eq_refl).
Defined.

(** Keyboard and mouse are tracked, auto-quit is set, the keyboard goes. *)
Lemma no_quit_while_devices_remain_witness :
  let s := Service.set_devices
             (<[devPath Sample.mouse :=
                  {| Service.description := Sample.mouse;
                     Service.device := Sample.g810 |}]>
                {[ devPath Sample.keyboard := Sample.manager ]})
             (Sample.service true) in
  Service.m_devices s !! devPath Sample.keyboard = Some Sample.manager ∧
  delete (devPath Sample.keyboard) (Service.m_devices s) ≠ ∅ ∧
  Registry.quitCount
    (Service.trace (Service.onDeviceRemoved Sample.serial Sample.keyboard s)) = 0.
Proof.
  cbn zeta.
  set (s := Service.set_devices
              (<[devPath Sample.mouse :=
                   {| Service.description := Sample.mouse;
                      Service.device := Sample.g810 |}]>
                 {[ devPath Sample.keyboard := Sample.manager ]})
              (Sample.service true)).
  assert (delete (devPath Sample.keyboard) (Service.m_devices s) ≠ ∅) as Hrest.
  { intros Hempty. apply (f_equal (.!! devPath Sample.mouse)) in Hempty.
    vm_compute in Hempty. discriminate Hempty. }
  split; [reflexivity|]. split; [exact Hrest|].
  apply (no_quit_while_devices_remain Sample.serial Sample.keyboard
           Sample.manager s eq_refl Hrest).
Defined.

(** ** The rules of the filter as they are set *)

Section FilterRules.

Import FilteredDeviceWatcher Loop.

Lemma lastRule_snoc (k : string) (rules : list (string * string))
    (kv : string * string) :
  lastRule k (rules ++ [kv])
  = if decide (kv.1 = k) then Some kv.2 else lastRule k rules.
Proof.
  unfold lastRule. rewrite filter_app, last_app, filter_cons, filter_nil.
  by case_decide.
Qed.

(** X14.  Property rules and attribute rules are kept by key: after any
    series of [addProperty] (of [addAttribute]) calls the rule for a key
    is the value of the last call for that key, an earlier value for it
    is gone, and a key no call names keeps the rule it had.  The calls
    change no other member of the filter. *)
Theorem keyed_rules_last_call_wins (rules : list (string * string))
    (f : t) (k : string) :
  m_matchProperties (addProperties rules f) !! k
    = match lastRule k rules with
      | Some v => Some v
      | None => m_matchProperties f !! k
      end ∧
  m_matchAttributes (addAttributes rules f) !! k
    = match lastRule k rules with
      | Some v => Some v
      | None => m_matchAttributes f !! k
      end ∧
  m_matchAttributes (addProperties rules f) = m_matchAttributes f ∧
  m_matchProperties (addAttributes rules f) = m_matchProperties f ∧
  m_matchTags (addProperties rules f) = m_matchTags f ∧
  m_matchTags (addAttributes rules f) = m_matchTags f ∧
  m_matchSubsystem (addProperties rules f) = m_matchSubsystem f ∧
  m_matchSubsystem (addAttributes rules f) = m_matchSubsystem f ∧
  m_matchDevType (addProperties rules f) = m_matchDevType f ∧
  m_matchDevType (addAttributes rules f) = m_matchDevType f.
Proof.
  induction rules as [|[k0 v0] rules IH] using rev_ind;
    [cbn; repeat split; by destruct (_ !! k)|].
  destruct IH as (Hp & Ha & Hpa & Hap & Hpt & Hat & Hps & Has & Hpd & Had).
  unfold addProperties, addAttributes in *. rewrite !foldl_app. cbn.
  rewrite lastRule_snoc. cbn [fst snd].
  repeat split; try done.
  - case_decide as Hk.
    + subst k0. apply lookup_insert_eq.
    + by rewrite lookup_insert_ne.
  - case_decide as Hk.
    + subst k0. apply lookup_insert_eq.
    + by rewrite lookup_insert_ne.
Qed.

(** X15.  Tag rules pile up: after any series of [addTag] calls the tag
    list is the one before followed by the tags of the calls, in call
    order, a tag given twice being there twice; the other members are
    not touched. *)
Theorem tag_rules_pile_up (rules : list string) (f : t) :
  m_matchTags (addTags rules f) = m_matchTags f ++ rules ∧
  m_matchProperties (addTags rules f) = m_matchProperties f ∧
  m_matchAttributes (addTags rules f) = m_matchAttributes f ∧
  m_matchSubsystem (addTags rules f) = m_matchSubsystem f ∧
  m_matchDevType (addTags rules f) = m_matchDevType f.
Proof.
  induction rules as [|tag rules IH] using rev_ind;
    [cbn; by rewrite app_nil_r|].
  destruct IH as (Ht & Hp & Ha & Hs & Hd).
  unfold addTags in *. rewrite foldl_app. cbn.
  rewrite Ht, app_assoc. done.
Qed.

End FilterRules.
